(** * Product versioning and selection in [eewperformance/comcat.py]

    A shallow embedding of [DetailEvent.get_product], [DetailEvent.time],
    [Product.__init__], [Product.update_time], [Product.get_content_name]
    and [Product.get_content_url], with the properties of the product
    selection engine stated and proved over it.

    Modelling conventions.
    - The parsed GeoJSON document is a graph of Python objects.  The
      submission dictionaries and their nested ["properties"] and
      ["contents"] mappings live in a [store] and are named by locations,
      so that [dict.copy()] and the aliasing it leaves behind are visible.
      The document is typed: a submission has its five keys, so KeyError
      does not arise.
    - The numpy structured array [df] is a [list Row]; the dtype fields keep
      their names.  The ["S64"] column holds the first 64 bytes of a source,
      trailing NUL bytes dropped.  [int32] and [int64] are the stored values
      of integers that numpy accepts; where numpy refuses a value (an update
      time outside 64 bits, on recent versions a weight outside 32 bits, a
      source that is not ASCII) filling the columns raises and no table
      exists.  Statements about rows speak of a table that was built;
      statements that promise a result assume [storable] submissions.
    - [ndarray.sort(order=...)] compares the named fields first and breaks
      ties with the remaining fields in dtype order.  Rows differ in
      [index], so this order is total on a table and the sorted table does
      not depend on the sorting algorithm ([sort_unique]).
    - A Python call either returns, raises, or (model only) is [Stuck] on a
      location that the store does not hold; Python has no dangling
      references, so [Stuck] is unreachable from a well-formed document.
    - Source identifiers are byte strings, and the comparisons
      [df["source"] == s] are equality of byte strings up to trailing NUL
      bytes, which numpy takes for padding: this is Python 2, or
      Python 3 with the sources given as bytes.  Where Python 3 compares
      the column with a [str], lines 259 and 264 match no row and the call
      raises 'No products found'; what is stated of the 'preferred' and
      explicit-source branches is therefore stated of calls that return.
    - [re.search] and [urlparse] are library functions: the content scans
      take them as parameters.  The iteration order of [set] is a parameter
      of [get_product]. *)

From Stdlib Require Import ZArith String Ascii List Lia.
From stdpp Require Import base tactics option list sorting gmap strings fin_maps.

Local Open Scope Z_scope.
Local Open Scope string_scope.
Local Open Scope list_scope.

(** ** Outcomes of a call *)

Inductive attribute_error :=
  | NoProductOfType (productName : string)
      (* 'Event %s has no product of type %s' *)
  | NoProductsForSource (source : string)
      (* 'No products found for source "%s".' *)
  | NoVersionOption (version : Z)
      (* "No VersionOption defined for %s" *)
  | NoAttribute (attr : string).
      (* raised by attribute lookup: 'numpy.ndarray' object has no attribute ... *)

Inductive exception :=
  | AttributeError (why : attribute_error)
  | ValueError (msg : string)
  | IndexError.

Inductive outcome (A : Type) :=
  | Returns (a : A)
  | Raises (e : exception)
  | Stuck.
Arguments Returns {A} a.
Arguments Raises {A} e.
Arguments Stuck {A}.

Definition outcome_map {A B} (f : A -> B) (o : outcome A) : outcome B :=
  match o with
  | Returns a => Returns (f a)
  | Raises e => Raises e
  | Stuck => Stuck
  end.

Definition outcome_bind {A B} (o : outcome A) (k : A -> outcome B) : outcome B :=
  match o with
  | Returns a => k a
  | Raises e => Raises e
  | Stuck => Stuck
  end.

(** The error kind the specification calls NotFound is the [AttributeError]
    that [get_product] raises itself. *)
Definition is_NotFound {A} (o : outcome A) : Prop :=
  match o with
  | Raises (AttributeError (NoProductOfType _))
  | Raises (AttributeError (NoProductsForSource _)) => True
  | _ => False
  end.

(** ** VersionOption *)

Module VersionOption.
Definition LAST : Z := 1.
Definition FIRST : Z := 2.
Definition ALL : Z := 3.
Definition PREFERRED : Z := 4.
End VersionOption.

(** ** Origin and update time: the seconds / milliseconds split *)

(** [time_in_sec = time_in_msec//1000]; Python's [//] on integers is floor
    division, which is [Z.div] for a positive divisor. *)
Definition time_in_sec (time_in_msec : Z) : Z := time_in_msec / 1000.

(** [msec = time_in_msec - (time_in_sec*1000)] *)
Definition msec (time_in_msec : Z) : Z :=
  time_in_msec - (time_in_sec time_in_msec * 1000).

(** A [datetime] is an instant counted in microseconds from the epoch;
    [utcfromtimestamp s] is the instant [s] seconds after it and
    [timedelta(milliseconds=m)] is [m] thousand microseconds.  The range of
    years that [datetime] can represent is not modelled. *)
Definition utcfromtimestamp (s : Z) : Z := s * 1000000.
Definition timedelta_milliseconds (m : Z) : Z := m * 1000.

Definition datetime_of_msec (time_in_msec : Z) : Z :=
  let s := time_in_sec time_in_msec in
  let m := msec time_in_msec in
  utcfromtimestamp s + timedelta_milliseconds m.

(** ** The table [df] *)

(** Storage conversions of the dtype. *)
Definition wrap (bits : Z) (z : Z) : Z :=
  (z + 2 ^ (bits - 1)) mod 2 ^ bits - 2 ^ (bits - 1).
Definition int32 (z : Z) : Z := wrap 32 z.
Definition int64 (z : Z) : Z := wrap 64 z.

(** A value read from an ["S"] field has no trailing NUL bytes: they are the
    field's padding. *)
Fixpoint rstrip_nul (s : string) : string :=
  match s with
  | EmptyString => EmptyString
  | String c rest =>
      match rstrip_nul rest with
      | EmptyString =>
          if Ascii.eqb c Ascii.zero then EmptyString else String c EmptyString
      | rest' => String c rest'
      end
  end.

Definition S64 (s : string) : string := rstrip_nul (substring 0 64 s).

Module Df.
Record t := mk {
  weight : Z;      (* "int32" *)
  source : string; (* "S64" *)
  time : Z;        (* "int64" *)
  index : nat;     (* "int32", filled from range(0,nrows) *)
  version : Z      (* "int32" *)
}.

(** [row["version"] = v] *)
Definition set_version (v : Z) (r : t) : t :=
  mk (weight r) (source r) (time r) (index r) v.

Global Instance eq_dec : EqDecision t.
Proof. solve_decision. Defined.
End Df.

Abbreviation Row := Df.t.

(** *** [ndarray.sort(order=...)] *)

Inductive field := Weight | Source | Time | Index | Version.

Global Instance field_eq_dec : EqDecision field.
Proof. solve_decision. Defined.

(** The dtype's field names, in declaration order. *)
Definition dtype_names : list field := [Weight; Source; Time; Index; Version].

(** numpy compares the fields named in [order] first and then the fields
    left over, in dtype order, to break ties. *)
Definition newnames (order : list field) : list field :=
  (order ++ filter (fun f => f ∉ order) dtype_names)%list.

Definition field_cmp (f : field) (a b : Row) : comparison :=
  match f with
  | Weight => Z.compare (Df.weight a) (Df.weight b)
  | Source => String.compare (Df.source a) (Df.source b)
  | Time => Z.compare (Df.time a) (Df.time b)
  | Index => Nat.compare (Df.index a) (Df.index b)
  | Version => Z.compare (Df.version a) (Df.version b)
  end.

Fixpoint row_cmp (names : list field) (a b : Row) : comparison :=
  match names with
  | [] => Eq
  | f :: fs =>
      match field_cmp f a b with
      | Eq => row_cmp fs a b
      | c => c
      end
  end.

Definition row_le (names : list field) : relation Row :=
  fun a b => row_cmp names a b <> Gt.

Global Instance row_le_dec names : RelDecision (row_le names).
Proof. intros a b. unfold row_le. solve_decision. Defined.

Definition sort (order : list field) (df : list Row) : list Row :=
  merge_sort (row_le (newnames order)) df.

(** ** The document: submissions, their nested mappings, the store *)

Definition loc := positive.

(** One entry of a ["contents"] mapping: [{"url": ..., ...}]. *)
Record Content := mkContent { url : string }.

(** One submission dictionary of [properties.products[typeName]].  The
    scalars are held by value; ["properties"] and ["contents"] are
    references to mapping objects. *)
Record RawSubmission := mkRaw {
  preferredWeight : Z;
  source : string;
  updateTime : Z;
  properties : loc;
  contents : loc
}.

Record store := mkStore {
  dicts : gmap loc RawSubmission;
  propertymaps : gmap loc (list (string * string));
  contentmaps : gmap loc (list (string * Content))
}.

(** [self._jdict]: the origin time in epoch milliseconds and, per product
    type, the list of (references to) submission dictionaries. *)
Record DetailEvent := mkEvent {
  jdict_id : string;
  properties_time : Z;
  products : gmap string (list loc)
}.

Record Product := mkProduct {
  _product_name : string;
  _version : Z;
  _product : loc
}.

(** [DetailEvent.time] and [Product.update_time] *)
Definition DetailEvent_time (ev : DetailEvent) : Z :=
  datetime_of_msec (properties_time ev).

Definition Product_update_time (st : store) (p : Product) : outcome Z :=
  match dicts st !! _product p with
  | Some d => Returns (datetime_of_msec (updateTime d))
  | None => Stuck
  end.

(** [Product.__init__]: [self._product = product.copy()].  [dict.copy()]
    is shallow: a new dictionary object with the same bindings, so the
    nested mappings are shared with the original. *)
Definition dict_copy (st : store) (l : loc) : option (store * loc) :=
  d ← dicts st !! l;
  let l' := fresh (dom (dicts st)) in
  Some (mkStore (<[l' := d]> (dicts st)) (propertymaps st) (contentmaps st), l').

Definition Product_init (st : store) (product_name : string) (version : Z)
    (product : loc) : option (store * Product) :=
  '(st', l') ← dict_copy st product;
  Some (st', mkProduct product_name version l').

(** ** [DetailEvent.get_product] *)

Definition has_product (ev : DetailEvent) (product : string) : bool :=
  bool_decide (is_Some (products ev !! product)).

(** The five column assignments that fill [df]: row [i] takes the weight,
    source and time of submission [i], its position, and version 0. *)
Definition row_of (i : nat) (product : RawSubmission) : Row :=
  Df.mk (int32 (preferredWeight product)) (S64 (source product))
         (int64 (updateTime product)) i 0.

Definition build_df (raw : list RawSubmission) : list Row := imap row_of raw.

(** The loop that numbers the versions of each source. *)
Fixpoint assign_versions (psources : list string) (pversion : Z)
    (df : list Row) : list Row :=
  match df with
  | [] => []
  | row :: rest =>
      let '(psources, pversion) :=
        if decide (Df.source row ∈ psources) then (psources, pversion)
        else ((psources ++ [Df.source row])%list, 1) in
      Df.set_version pversion row
        :: assign_versions psources (pversion + 1) rest
  end.

Definition version_table (raw : list RawSubmission) : list Row :=
  assign_versions [] 1 (sort [Source; Time] (build_df raw)).

(** [numpy.argmax]: position of the first occurrence of the maximum. *)
Fixpoint argmax_go (best_i : nat) (best : Z) (i : nat) (l : list Z) : nat :=
  match l with
  | [] => best_i
  | x :: xs =>
      if (best <? x)%Z then argmax_go i x (S i) xs
      else argmax_go best_i best (S i) xs
  end.

Definition argmax (l : list Z) : outcome nat :=
  match l with
  | [] => Raises (ValueError "attempt to get argmax of an empty sequence")
  | x :: xs => Returns (argmax_go 0 x 1 xs)
  end.

(** [df[df["source"] == s]] *)
Definition filter_source (s : string) (df : list Row) : list Row :=
  filter (fun r => Df.source r = s) df.

(** Lines 256-268: the source filter.  [index] is a position in the sorted
    table [df]; the code uses it to subscript the submission list.  The
    comparison with the column pads the shorter side with NUL bytes: the
    string compared counts without its trailing NUL bytes, and in full
    length (a string of more than 64 bytes equals no stored source). *)
Definition select_source (raw : list RawSubmission) (df : list Row)
    (source_arg : string) : outcome (list Row) :=
  outcome_bind
    (if String.eqb source_arg "preferred" then
       outcome_bind (argmax (Df.weight <$> df)) (fun index =>
         match raw !! index with
         | Some product =>
             let prefsource := source product in
             Returns (sort [Time] (filter_source (rstrip_nul prefsource) df))
         | None => Raises IndexError
         end)
     else if String.eqb source_arg "all" then
       Returns (sort [Source; Time] df)
     else
       Returns (sort [Time] (filter_source (rstrip_nul source_arg) df)))
    (fun df =>
       match df with
       | [] => Raises (AttributeError (NoProductsForSource source_arg))
       | _ => Returns df
       end).

(** Lines 276-299 and 301-324: the version policy applied to one table
    [df].  The result lists the selected rows; each becomes
    [Product(productName, row["version"], ...[productName][row["index"]])].
    [df[-1]] and [df[0]] raise IndexError on an empty table.  A numpy array
    has no [iterrows] attribute, so the lookup itself raises. *)
Definition resolve_version (version : Z) (df : list Row) : outcome (list Row) :=
  if (version =? VersionOption.PREFERRED)%Z then
    match last (sort [Weight; Time] df) with
    | Some row => Returns [row]
    | None => Raises IndexError
    end
  else if (version =? VersionOption.LAST)%Z then
    match last df with
    | Some row => Returns [row]
    | None => Raises IndexError
    end
  else if (version =? VersionOption.FIRST)%Z then
    match head df with
    | Some row => Returns [row]
    | None => Raises IndexError
    end
  else if (version =? VersionOption.ALL)%Z then
    Raises (AttributeError (NoAttribute "iterrows"))
  else
    Raises (AttributeError (NoVersionOption version)).

(** The loop [for source in usources] of the 'all' branch. *)
Fixpoint resolve_sources (version : Z) (df : list Row)
    (usources : list string) : outcome (list Row) :=
  match usources with
  | [] => Returns []
  | s :: rest =>
      let df_source := sort [Time] (filter_source s df) in
      outcome_bind (resolve_version version df_source) (fun rows =>
        outcome_map (app rows) (resolve_sources version df rest))
  end.

(** The products of the selected rows:
    [Product(productName, pversion, self._jdict[...][productName][index])]
    for each row, in order. *)
Fixpoint make_products (st : store) (productName : string) (locs : list loc)
    (rows : list Row) : store * outcome (list Product) :=
  match rows with
  | [] => (st, Returns [])
  | row :: rest =>
      match locs !! Df.index row with
      | None => (st, Raises IndexError)
      | Some l =>
          match Product_init st productName (Df.version row) l with
          | None => (st, Stuck)
          | Some (st', p) =>
              let '(st'', o) := make_products st' productName locs rest in
              (st'', outcome_map (cons p) o)
          end
      end
  end.

(** [[product[...] for product in self._jdict[...][productName]]]: the
    submission dictionaries read through the store. *)
Definition read_submissions (st : store) (locs : list loc)
    : option (list RawSubmission) :=
  mapM (fun l => dicts st !! l) locs.

Section get_product.

(** [usources = set(df["source"])]: the iteration order of a Python set is
    not specified, so the order is a parameter. *)
Variable set_iter : list string -> list string.

(** The rows that [get_product] selects, in the order in which it builds
    their products. *)
Definition select_rows (raw : list RawSubmission) (source_arg : string)
    (version : Z) : outcome (list Row) :=
  let df := version_table raw in
  outcome_bind (select_source raw df source_arg) (fun df =>
    let usources := set_iter (Df.source <$> df) in
    if String.eqb source_arg "all" then resolve_sources version df usources
    else resolve_version version df).

(** An exception abandons the products built so far; nothing refers to
    them, so the store is then left as it was found. *)
Definition get_product (st : store) (ev : DetailEvent) (productName : string)
    (source_arg : string) (version : Z) : store * outcome (list Product) :=
  match products ev !! productName with
  | None => (* not self.has_product(productName) *)
      (st, Raises (AttributeError (NoProductOfType productName)))
  | Some locs =>
      match read_submissions st locs with
      | None => (st, Stuck)
      | Some raw =>
          match select_rows raw source_arg version with
          | Returns rows =>
              match make_products st productName locs rows with
              | (st', Returns ps) => (st', Returns ps)
              | (_, o) => (st, o)
              end
          | Raises e => (st, Raises e)
          | Stuck => (st, Stuck)
          end
      end
  end.

End get_product.

(** ** Content lookup *)

(** ["a"*1000] *)
Fixpoint string_mul (s : string) (n : nat) : string :=
  match n with
  | O => EmptyString
  | S n => String.append s (string_mul s n)
  end.

(** [path.split("/")[-1]] *)
Fixpoint split_last (seg : string) (path : string) : string :=
  match path with
  | EmptyString => seg
  | String c rest =>
      if Ascii.eqb c "/" then split_last EmptyString rest
      else split_last (String.append seg (String c EmptyString)) rest
  end.

Section contents.

(** [re.search(pattern, s) is not None] and [urlparse(url).path]. *)
Variable re_search : string -> string -> bool.
Variable urlparse_path : string -> string.

Definition fname_of (content : Content) : string :=
  split_last EmptyString (urlparse_path (url content)).

(** One iteration of the loop of [get_content_name]; the state is
    [(content_name, found)]. *)
Definition name_step (regexp : string) (state : string * bool)
    (item : string * Content) : string * bool :=
  let '(content_name, found) := state in
  let '(contentkey, content) := item in
  if negb (re_search (String.append regexp "$") contentkey) then state
  else
    let fname := fname_of content in
    if (String.length fname <? String.length content_name)%nat
    then (fname, true)
    else state.

Definition scan_name (regexp : string) (items : list (string * Content))
    : option string :=
  let '(content_name, found) :=
    fold_left (name_step regexp) items (string_mul "a" 1000, false) in
  if found then Some content_name else None.

(** One iteration of the loop of [get_content_url]; the state is
    [(content_name, found, content_url)]. *)
Definition url_step (regexp : string) (state : string * bool * string)
    (item : string * Content) : string * bool * string :=
  let '(content_name, found, content_url) := state in
  let '(contentkey, content) := item in
  if negb (re_search (String.append regexp "$") contentkey) then state
  else
    let fname := fname_of content in
    if (String.length fname <? String.length content_name)%nat
    then (fname, true, url content)
    else state.

Definition scan_url (regexp : string) (items : list (string * Content))
    : option string :=
  let '(content_name, found, content_url) :=
    fold_left (url_step regexp) items (string_mul "a" 1000, false, EmptyString) in
  if found then Some content_url else None.

(** [self._product["contents"].items()] *)
Definition contents_items (st : store) (p : Product)
    : option (list (string * Content)) :=
  d ← dicts st !! _product p;
  contentmaps st !! contents d.

Definition get_content_name (st : store) (p : Product) (regexp : string)
    : outcome (option string) :=
  match contents_items st p with
  | Some items => Returns (scan_name regexp items)
  | None => Stuck
  end.

Definition get_content_url (st : store) (p : Product) (regexp : string)
    : outcome (option string) :=
  match contents_items st p with
  | Some items => Returns (scan_url regexp items)
  | None => Stuck
  end.

(** The entries that the scan considers are those whose key matches. *)
Definition matches (regexp : string) (item : string * Content) : Prop :=
  re_search (String.append regexp "$") (fst item) = true.

Definition fname_length (item : string * Content) : nat :=
  String.length (fname_of (snd item)).

(** The tie-break as the specification words it: when two or more matching
    entries share the minimum file-name length, the last of them in
    iteration order is the one returned. *)
Definition last_match_wins (regexp : string) (items : list (string * Content))
    : Prop :=
  forall pre item post,
    items = pre ++ item :: post ->
    matches regexp item ->
    (forall x, x ∈ pre -> matches regexp x -> (fname_length item <= fname_length x)%nat) ->
    (forall x, x ∈ post -> matches regexp x -> (fname_length item < fname_length x)%nat) ->
    (exists x, x ∈ pre /\ matches regexp x /\ fname_length x = fname_length item) ->
    scan_name regexp items = Some (fname_of (snd item)).

End contents.

(** ** What the caller can observe and change *)

(** The contents of a submission dictionary, nested mappings included. *)
Definition deep_dict (st : store) (l : loc)
    : option (RawSubmission * option (list (string * string))
                            * option (list (string * Content))) :=
  d ← dicts st !! l;
  Some (d, propertymaps st !! properties d, contentmaps st !! contents d).

(** The raw data of an event: every submission of every product type. *)
Definition raw_data (st : store) (ev : DetailEvent) :=
  (fun locs : list loc => deep_dict st <$> locs) <$> products ev.

(** A product as its caller sees it: name, version and the data behind
    [self._product]. *)
Definition product_view (st : store) (p : Product) :=
  (_product_name p, _version p, deep_dict st (_product p)).

(** [d[k] = v] on an insertion-ordered mapping. *)
Fixpoint setitem {V} (k : string) (v : V) (kv : list (string * V))
    : list (string * V) :=
  match kv with
  | [] => [(k, v)]
  | (k', v') :: rest =>
      if String.eqb k' k then (k, v) :: rest else (k', v') :: setitem k v rest
  end.

(** Assignments a caller can make through [p._product]. *)
Inductive mutation :=
  | Set_preferredWeight (z : Z)   (* p._product["preferredWeight"] = z *)
  | Set_source (s : string)       (* p._product["source"] = s *)
  | Set_updateTime (z : Z)        (* p._product["updateTime"] = z *)
  | Set_properties (l : loc)      (* p._product["properties"] = other *)
  | Set_contents (l : loc)        (* p._product["contents"] = other *)
  | Properties_setitem (k v : string)
                                  (* p._product["properties"][k] = v *)
  | Contents_setitem (k : string) (c : Content).
                                  (* p._product["contents"][k] = c *)

Definition top_level (m : mutation) : bool :=
  match m with
  | Properties_setitem _ _ | Contents_setitem _ _ => false
  | _ => true
  end.

Definition update_dict (m : mutation) (d : RawSubmission) : RawSubmission :=
  match m with
  | Set_preferredWeight z =>
      mkRaw z (source d) (updateTime d) (properties d) (contents d)
  | Set_source s =>
      mkRaw (preferredWeight d) s (updateTime d) (properties d) (contents d)
  | Set_updateTime z =>
      mkRaw (preferredWeight d) (source d) z (properties d) (contents d)
  | Set_properties l =>
      mkRaw (preferredWeight d) (source d) (updateTime d) l (contents d)
  | Set_contents l =>
      mkRaw (preferredWeight d) (source d) (updateTime d) (properties d) l
  | _ => d
  end.

Definition mutate (st : store) (p : Product) (m : mutation) : store :=
  match dicts st !! _product p with
  | None => st
  | Some d =>
      match m with
      | Properties_setitem k v =>
          mkStore (dicts st)
                  (alter (setitem k v) (properties d) (propertymaps st))
                  (contentmaps st)
      | Contents_setitem k c =>
          mkStore (dicts st) (propertymaps st)
                  (alter (setitem k c) (contents d) (contentmaps st))
      | _ =>
          mkStore (<[_product p := update_dict m d]> (dicts st))
                  (propertymaps st) (contentmaps st)
      end
  end.

(** Every submission that the event refers to is held by the store. *)
Definition event_wf (st : store) (ev : DetailEvent) : Prop :=
  forall productName locs l,
    products ev !! productName = Some locs -> l ∈ locs ->
    is_Some (dicts st !! l).

(** [st'] holds everything [st] holds, and the same nested mappings. *)
Definition store_extends (st st' : store) : Prop :=
  dicts st ⊆ dicts st' /\
  propertymaps st' = propertymaps st /\
  contentmaps st' = contentmaps st.

(** The numbering as the specification words it: the versions, in table
    order, of the submissions whose own source is [s], for every source [s]
    that occurs in the submission list. *)
Definition versions_by_full_source (s : string) (raw : list RawSubmission)
    : list Z :=
  Df.version <$>
    filter (fun r => (source <$> (raw !! Df.index r)) = Some s)
           (version_table raw).

Definition numbered_per_source (raw : list RawSubmission) : Prop :=
  forall s, s ∈ source <$> raw ->
    versions_by_full_source s raw
    = seqZ 1 (Z.of_nat (length (versions_by_full_source s raw))).

(** Rows in the order of their sources alone. *)
Definition source_le (a b : Row) : Prop :=
  String.compare (Df.source a) (Df.source b) <> Gt.

(** ** Worked data *)

(** The submissions of type "origin" of the specification's example. *)
Definition origin_us_100 : RawSubmission := mkRaw 1 "us" 100 11%positive 21%positive.
Definition origin_us_200 : RawSubmission := mkRaw 2 "us" 200 12%positive 22%positive.
Definition origin_ci_150 : RawSubmission := mkRaw 5 "ci" 150 13%positive 23%positive.

Definition example_store : store :=
  mkStore
    (list_to_map [(1%positive, origin_us_100); (2%positive, origin_us_200);
                  (3%positive, origin_ci_150)])
    (list_to_map [(11%positive, [("magnitude", "4.2")]);
                  (12%positive, [("magnitude", "4.3")]);
                  (13%positive, [("magnitude", "4.4")])])
    (list_to_map
       [(21%positive, []);
        (22%positive, []);
        (23%positive,
          [("grid.xml", mkContent "https://host/product/grid.xml");
           ("grid.xml.zip", mkContent "https://host/product/grid.xml.zip")])]).

Definition example_event : DetailEvent :=
  mkEvent "nc72923380" 1518000000123
    (list_to_map [("origin", [1%positive; 2%positive; 3%positive]);
                  ("shakemap", [])]).

(** A product whose only content file has a name of 1000 characters. *)
Definition long_contents : list (string * Content) :=
  [("grid.xml", mkContent (String.append "https://host/" (string_mul "g" 1000)))].

Definition long_store : store :=
  mkStore {[ 1%positive := mkRaw 1 "us" 100 11%positive 21%positive ]}
          {[ 11%positive := [] ]}
          {[ 21%positive := long_contents ]}.

Definition long_product : Product := mkProduct "shakemap" 1 1%positive.

(** A product with two content files whose names have the same length. *)
Definition tie_first : string * Content :=
  ("a.xml", mkContent "https://host/product/a.xml").
Definition tie_second : string * Content :=
  ("b.xml", mkContent "https://host/product/b.xml").

Definition tie_store : store :=
  mkStore {[ 1%positive := mkRaw 1 "us" 100 11%positive 21%positive ]}
          {[ 11%positive := [] ]}
          {[ 21%positive := [tie_first; tie_second] ]}.

Definition tie_product : Product := mkProduct "shakemap" 1 1%positive.

(** Two sources of 65 bytes that agree on their first 64. *)
Definition long_source_x : string := String.append (string_mul "n" 64) "x".
Definition long_source_y : string := String.append (string_mul "n" 64) "y".

Definition long_raw : list RawSubmission :=
  [mkRaw 1 long_source_x 100 11%positive 21%positive;
   mkRaw 1 long_source_y 200 12%positive 22%positive].

(** An iteration order for [set]: first occurrences, in order. *)
Definition first_seen (l : list string) : list string := remove_dups l.

(** Stand-ins for the library calls on the inputs of the examples: on a
    pattern free of metacharacters [re.search(p + "$", s)] asks whether [s]
    ends with [p], and on a URL [scheme://host/path] without parameters,
    query or fragment [urlparse] gives [/path]. *)
Fixpoint ends_with (p s : string) : bool :=
  if String.eqb p s then true
  else match s with
       | EmptyString => false
       | String _ rest => ends_with p rest
       end.

Definition search_literal (pattern s : string) : bool :=
  ends_with (substring 0 (String.length pattern - 1) pattern) s.

Fixpoint drop_to_slash (s : string) : string :=
  match s with
  | EmptyString => EmptyString
  | String c rest => if Ascii.eqb c "/" then s else drop_to_slash rest
  end.

Definition path_of_plain_url (u : string) : string :=
  match index 0 "://" u with
  | Some n => drop_to_slash (substring (n + 3) (String.length u) u)
  | None => u
  end.

(** ** Further operations of [DetailEvent] and [Product] *)

(** [DetailEvent.get_num_versions] *)
Definition get_num_versions (ev : DetailEvent) (productName : string)
    : outcome nat :=
  match products ev !! productName with
  | None => (* not self.has_product(productName) *)
      Raises (AttributeError (NoProductOfType productName))
  | Some locs => Returns (length locs)
  end.

(** [key in d] and [d[key]] on an insertion-ordered mapping. *)
Fixpoint getitem {V} (k : string) (kv : list (string * V)) : option V :=
  match kv with
  | [] => None
  | (k', v) :: rest => if String.eqb k' k then Some v else getitem k rest
  end.

(** [self._product["properties"]] *)
Definition properties_items (st : store) (p : Product)
    : option (list (string * string)) :=
  d ← dicts st !! _product p;
  propertymaps st !! properties d.

(** The result of [Product.__getitem__]: the property, or the
    AttributeError "No property %s found in %s product." with its two
    arguments, or (model only) no dictionary behind the product. *)
Inductive property_result :=
  | Property (v : string)
  | NoProperty (key product_name : string)
  | NoDict.

Definition Product_getitem (st : store) (p : Product) (key : string)
    : property_result :=
  match properties_items st p with
  | None => NoDict
  | Some kv =>
      match getitem key kv with
      | None => NoProperty key (_product_name p)
      | Some v => Property v
      end
  end.

(** [Product.has_property] *)
Definition Product_has_property (st : store) (p : Product) (key : string)
    : outcome bool :=
  match properties_items st p with
  | None => Stuck
  | Some kv =>
      match getitem key kv with
      | None => Returns false
      | Some _ => Returns true
      end
  end.

(** [Product.properties]: [list(self._product["properties"].keys())] *)
Definition Product_properties (st : store) (p : Product)
    : outcome (list string) :=
  match properties_items st p with
  | None => Stuck
  | Some kv => Returns (fst <$> kv)
  end.

(** [Product.source], [Product.preferred_weight], [Product.version] *)
Definition Product_source (st : store) (p : Product) : outcome string :=
  match dicts st !! _product p with
  | Some d => Returns (source d)
  | None => Stuck
  end.

Definition Product_preferred_weight (st : store) (p : Product) : outcome Z :=
  match dicts st !! _product p with
  | Some d => Returns (preferredWeight d)
  | None => Stuck
  end.

Definition Product_version (p : Product) : Z := _version p.

Section contents_more.

Variable re_search : string -> string -> bool.
Variable urlparse_path : string -> string.

(** The loop of [Product.get_contents_matching]: the pattern is searched
    in the file name, and the names are collected in iteration order. *)
Definition matching_names (regexp : string) (items : list (string * Content))
    : list string :=
  match items with
  | [] => []  (* if not len(self._product["contents"]): return contents *)
  | _ =>
      omap (fun item : string * Content =>
              let fname := fname_of urlparse_path (snd item) in
              if re_search (String.append regexp "$") fname
              then Some fname else None) items
  end.

Definition get_contents_matching (st : store) (p : Product) (regexp : string)
    : outcome (list string) :=
  match contents_items st p with
  | Some items => Returns (matching_names regexp items)
  | None => Stuck
  end.

(** One iteration of the loop of [Product.fetch]; the state is
    [(content_name, content_url, url)], where [url] is the loop's own
    variable, unbound ([None]) until a key matches. *)
Definition fetch_step (regexp : string)
    (state : string * option string * option string)
    (item : string * Content) : string * option string * option string :=
  let '(content_name, content_url, url_var) := state in
  let '(contentkey, content) := item in
  if negb (re_search (String.append regexp "$") contentkey) then state
  else
    let fname := fname_of urlparse_path content in
    if (String.length fname <? String.length content_name)%nat
    then (fname, Some (url content), Some (url content))
    else (content_name, content_url, Some (url content)).

(** The URL that [Product.fetch] passes to [connection.get], or [None]
    when it returns before any request ([content_url is None]).  The
    request itself, the retry and the file written are not modelled. *)
Definition fetch_request (regexp : string) (items : list (string * Content))
    : option string :=
  let '(content_name, content_url, url_var) :=
    fold_left (fetch_step regexp) items (string_mul "a" 1000, None, None) in
  match content_url with
  | None => None
  | Some _ => url_var
  end.

(** What the scan of [get_content_name] has established after the entries
    [seen]: the name kept is no longer than the sentinel or any matching
    name seen, and once something was found it is the name of a matching
    entry seen, shorter than the sentinel. *)
Definition name_inv (regexp : string) (seen : list (string * Content))
    (cn : string) (found : bool) : Prop :=
  (String.length cn <= 1000)%nat /\
  (forall x, x ∈ seen -> matches re_search regexp x ->
             (String.length cn <= fname_length urlparse_path x)%nat) /\
  (found = true ->
     exists item, item ∈ seen /\ matches re_search regexp item /\
                  fname_of urlparse_path (snd item) = cn /\
                  (String.length cn < 1000)%nat) /\
  (found = false -> String.length cn = 1000%nat).

Definition Product_fetch_request (st : store) (p : Product) (regexp : string)
    : outcome (option string) :=
  match contents_items st p with
  | Some items => Returns (fetch_request regexp items)
  | None => Stuck
  end.

End contents_more.

(** A submission that numpy can store in the table on every version: the
    weight fits ["int32"], the update time fits ["int64"] and the source is
    ASCII.  For such a submission [int32] and [int64] store the value
    itself. *)
Definition is_ascii (s : string) : bool :=
  forallb (fun c => (nat_of_ascii c <? 128)%nat) (list_ascii_of_string s).

Definition storable (d : RawSubmission) : Prop :=
  (- 2147483648 <= preferredWeight d < 2147483648) /\
  (- 9223372036854775808 <= updateTime d < 9223372036854775808) /\
  is_ascii (source d) = true.

(** The rows of one source in the version table, and the submissions of
    one source in the submission list (sources as the table stores them). *)
Definition source_group (s : string) (raw : list RawSubmission) : list Row :=
  filter_source s (version_table raw).

Definition submissions_of (s : string) (raw : list RawSubmission)
    : list RawSubmission :=
  filter (fun d => S64 (source d) = s) raw.

(** * Properties *)

(** ** The order that [sort] uses *)

Lemma ascii_compare_lt_trans a b c :
  Ascii.compare a b = Lt -> Ascii.compare b c = Lt -> Ascii.compare a c = Lt.
Proof.
  unfold Ascii.compare. rewrite !N.compare_lt_iff. lia.
Qed.

Lemma string_compare_eq a b : String.compare a b = Eq -> a = b.
Proof. apply String.compare_eq_iff. Qed.

Lemma ascii_compare_refl a : Ascii.compare a a = Eq.
Proof. unfold Ascii.compare. apply N.compare_refl. Qed.

Lemma string_compare_refl a : String.compare a a = Eq.
Proof.
  induction a as [|x a IH]; simpl; [reflexivity|].
  now rewrite ascii_compare_refl.
Qed.

Lemma string_compare_lt_trans a b c :
  String.compare a b = Lt -> String.compare b c = Lt -> String.compare a c = Lt.
Proof.
  revert b c. induction a as [|x a IH]; intros [|y b] [|z c]; simpl;
    try discriminate; auto.
  destruct (Ascii.compare x y) eqn:Hxy; try discriminate;
    destruct (Ascii.compare y z) eqn:Hyz; try discriminate; intros H1 H2.
  - apply Ascii.compare_eq_iff in Hxy, Hyz. subst.
    rewrite ascii_compare_refl. eauto.
  - apply Ascii.compare_eq_iff in Hxy. subst. now rewrite Hyz.
  - apply Ascii.compare_eq_iff in Hyz. subst. now rewrite Hxy.
  - now rewrite (ascii_compare_lt_trans _ _ _ Hxy Hyz).
Qed.

Lemma field_cmp_antisym f a b : field_cmp f a b = CompOpp (field_cmp f b a).
Proof.
  destruct f; simpl.
  - apply Z.compare_antisym.
  - apply String.compare_antisym.
  - apply Z.compare_antisym.
  - apply Nat.compare_antisym.
  - apply Z.compare_antisym.
Qed.

Lemma field_cmp_eq_l f a b c :
  field_cmp f a b = Eq -> field_cmp f a c = field_cmp f b c.
Proof.
  destruct f; simpl; intros H.
  - apply Z.compare_eq in H. now rewrite H.
  - apply string_compare_eq in H. now rewrite H.
  - apply Z.compare_eq in H. now rewrite H.
  - apply Nat.compare_eq in H. now rewrite H.
  - apply Z.compare_eq in H. now rewrite H.
Qed.

Lemma field_cmp_eq_r f a b c :
  field_cmp f b c = Eq -> field_cmp f a b = field_cmp f a c.
Proof.
  intros H. rewrite (field_cmp_antisym f a b), (field_cmp_antisym f a c).
  f_equal. symmetry. apply field_cmp_eq_l.
  rewrite field_cmp_antisym, H. reflexivity.
Qed.

Lemma field_cmp_lt_trans f a b c :
  field_cmp f a b = Lt -> field_cmp f b c = Lt -> field_cmp f a c = Lt.
Proof.
  destruct f; simpl.
  - rewrite !Z.compare_lt_iff. lia.
  - apply string_compare_lt_trans.
  - rewrite !Z.compare_lt_iff. lia.
  - rewrite !Nat.compare_lt_iff. lia.
  - rewrite !Z.compare_lt_iff. lia.
Qed.

Lemma row_cmp_antisym names a b :
  row_cmp names a b = CompOpp (row_cmp names b a).
Proof.
  induction names as [|f fs IH]; simpl; [reflexivity|].
  rewrite (field_cmp_antisym f a b).
  destruct (field_cmp f b a); simpl; auto.
Qed.

Lemma row_cmp_eq_l names a b c :
  row_cmp names a b = Eq -> row_cmp names a c = row_cmp names b c.
Proof.
  induction names as [|f fs IH]; simpl; [reflexivity|].
  destruct (field_cmp f a b) eqn:Hab; try discriminate. intros H.
  rewrite (field_cmp_eq_l f a b c Hab).
  destruct (field_cmp f b c); auto.
Qed.

Lemma row_cmp_eq_r names a b c :
  row_cmp names b c = Eq -> row_cmp names a b = row_cmp names a c.
Proof.
  intros H. rewrite (row_cmp_antisym names a b), (row_cmp_antisym names a c).
  f_equal. symmetry. apply row_cmp_eq_l.
  rewrite row_cmp_antisym, H. reflexivity.
Qed.

Lemma row_cmp_lt_trans names a b c :
  row_cmp names a b = Lt -> row_cmp names b c = Lt -> row_cmp names a c = Lt.
Proof.
  induction names as [|f fs IH]; simpl; [discriminate|].
  destruct (field_cmp f a b) eqn:Hab; try discriminate;
    destruct (field_cmp f b c) eqn:Hbc; try discriminate; intros H1 H2.
  - rewrite (field_cmp_eq_l f a b c Hab), Hbc. auto.
  - now rewrite (field_cmp_eq_l f a b c Hab), Hbc.
  - now rewrite <- (field_cmp_eq_r f a b c Hbc), Hab.
  - now rewrite (field_cmp_lt_trans f a b c Hab Hbc).
Qed.

Global Instance row_le_total names : Total (row_le names).
Proof.
  intros a b. unfold row_le. rewrite (row_cmp_antisym names b a).
  destruct (row_cmp names a b); simpl; auto; left; discriminate.
Qed.

Global Instance row_le_trans names : Transitive (row_le names).
Proof.
  intros a b c. unfold row_le. intros H1 H2.
  destruct (row_cmp names a b) eqn:Hab; try congruence;
    destruct (row_cmp names b c) eqn:Hbc; try congruence.
  - rewrite (row_cmp_eq_l names a b c Hab), Hbc. discriminate.
  - rewrite (row_cmp_eq_l names a b c Hab), Hbc. discriminate.
  - rewrite <- (row_cmp_eq_r names a b c Hbc), Hab. discriminate.
  - rewrite (row_cmp_lt_trans names a b c Hab Hbc). discriminate.
Qed.

Lemma sort_sorted order df : StronglySorted (row_le (newnames order)) (sort order df).
Proof. apply StronglySorted_merge_sort; apply _. Qed.

Lemma sort_perm order df : sort order df ≡ₚ df.
Proof. apply merge_sort_Permutation. Qed.

(** Rows that agree on every field are one row, so the comparison over
    all five fields is antisymmetric: a table has one sorted arrangement,
    whatever algorithm numpy uses to reach it. *)
Lemma row_cmp_all_eq names a b :
  (forall f, f ∈ names) -> row_cmp names a b = Eq -> a = b.
Proof.
  intros Hall H.
  assert (forall f, field_cmp f a b = Eq) as Hf.
  { intros f. specialize (Hall f). clear -Hall H.
    induction names as [|g gs IH]; [inversion Hall|].
    simpl in H. destruct (field_cmp g a b) eqn:Hg; try discriminate.
    apply elem_of_cons in Hall as [->|Hin]; auto. }
  destruct a as [w1 s1 t1 i1 v1], b as [w2 s2 t2 i2 v2].
  pose proof (Hf Weight) as Hw. pose proof (Hf Source) as Hs.
  pose proof (Hf Time) as Ht. pose proof (Hf Index) as Hi.
  pose proof (Hf Version) as Hv. simpl in *.
  apply Z.compare_eq in Hw, Ht, Hv. apply Nat.compare_eq in Hi.
  apply string_compare_eq in Hs. congruence.
Qed.

Lemma newnames_all order f : f ∈ newnames order.
Proof.
  unfold newnames. apply elem_of_app.
  destruct (decide (f ∈ order)); [now left|right].
  apply list_elem_of_filter. split; [assumption|].
  destruct f; unfold dtype_names; set_solver.
Qed.

Global Instance row_le_antisym order : AntiSymm eq (row_le (newnames order)).
Proof.
  intros a b Hab Hba. unfold row_le in *.
  rewrite (row_cmp_antisym _ b a) in Hba.
  destruct (row_cmp (newnames order) a b) eqn:H; simpl in *; try congruence.
  eapply row_cmp_all_eq; [apply newnames_all|eassumption].
Qed.

Lemma sort_unique order df l :
  l ≡ₚ df -> Sorted (row_le (newnames order)) l -> l = sort order df.
Proof.
  intros Hp Hs.
  apply (Sorted_unique (row_le (newnames order))).
  - assumption.
  - apply StronglySorted_Sorted, sort_sorted.
  - now rewrite Hp, sort_perm.
Qed.

(** ** Origin time *)

(** C7: for every integer epoch-millisecond value [T] the derivation of
    [DetailEvent.time] and [Product.update_time] computes the whole seconds
    [T div 1000] and the remainder [T - 1000*s] exactly: the two parts
    recombine to [T], the remainder lies in [0, 1000), and the instant built
    from them is [T] milliseconds, so [T] is recovered without loss. *)
Theorem time_split_lossless (T : Z) :
  time_in_sec T = T / 1000 /\
  msec T = T - 1000 * time_in_sec T /\
  time_in_sec T * 1000 + msec T = T /\
  0 <= msec T < 1000 /\
  datetime_of_msec T = T * 1000 /\
  datetime_of_msec T / 1000 = T.
Proof.
  unfold datetime_of_msec, utcfromtimestamp, timedelta_milliseconds, msec,
    time_in_sec.
  pose proof (Z.div_mod T 1000 ltac:(lia)) as Hdm.
  pose proof (Z.mod_pos_bound T 1000 ltac:(lia)) as Hb.
  repeat split; try lia.
  replace ((T / 1000 * 1000000 + (T - T / 1000 * 1000) * 1000)) with (T * 1000)
    by lia.
  apply Z.div_mul. lia.
Qed.

(** ** The version table *)

Lemma string_le_trans a b c :
  String.compare a b <> Gt -> String.compare b c <> Gt ->
  String.compare a c <> Gt.
Proof.
  intros H1 H2.
  destruct (String.compare a b) eqn:Hab; try congruence;
    destruct (String.compare b c) eqn:Hbc; try congruence.
  - apply string_compare_eq in Hab. subst. now rewrite Hbc.
  - apply string_compare_eq in Hab. subst. now rewrite Hbc.
  - apply string_compare_eq in Hbc. subst. now rewrite Hab.
  - now rewrite (string_compare_lt_trans _ _ _ Hab Hbc).
Qed.

Lemma string_le_antisym a b :
  String.compare a b <> Gt -> String.compare b a <> Gt -> a = b.
Proof.
  intros H1 H2. rewrite String.compare_antisym in H2.
  destruct (String.compare a b) eqn:Hab; simpl in *; try congruence.
  now apply string_compare_eq.
Qed.

Lemma string_le_refl a : String.compare a a <> Gt.
Proof.
  rewrite string_compare_refl. discriminate.
Qed.

Lemma empty_string_le a : String.compare EmptyString a <> Gt.
Proof. destruct a; discriminate. Qed.

Lemma row_le_source fs a b : row_le (Source :: fs) a b -> source_le a b.
Proof.
  unfold row_le, source_le. simpl.
  destruct (String.compare (Df.source a) (Df.source b)); congruence.
Qed.

Lemma row_le_source_time fs a b :
  row_le (Source :: Time :: fs) a b -> Df.source a = Df.source b ->
  Df.time a <= Df.time b.
Proof.
  unfold row_le. simpl. intros H Heq.
  rewrite Heq, string_compare_refl in H. apply Z.compare_le_iff.
  intros Hgt. rewrite Hgt in H. congruence.
Qed.

Lemma StronglySorted_weaken {A} (R1 R2 : relation A) l :
  (forall a b, R1 a b -> R2 a b) -> StronglySorted R1 l -> StronglySorted R2 l.
Proof.
  intros Himp. induction 1 as [|a l Hs IH Hall]; constructor; auto.
  eapply Forall_impl; eauto.
Qed.

Lemma assign_versions_index ps pv df :
  Df.index <$> assign_versions ps pv df = Df.index <$> df.
Proof.
  revert ps pv. induction df as [|row rest IH]; intros ps pv; simpl; [done|].
  destruct (decide (Df.source row ∈ ps)); simpl; now rewrite IH.
Qed.

Lemma assign_versions_times s ps pv df :
  Df.time <$> filter_source s (assign_versions ps pv df)
  = Df.time <$> filter_source s df.
Proof.
  unfold filter_source.
  revert ps pv. induction df as [|row rest IH]; intros ps pv; simpl; [done|].
  destruct (decide (Df.source row ∈ ps)); simpl; rewrite !filter_cons; simpl;
    destruct (decide (Df.source row = s)); simpl; now rewrite IH.
Qed.

Lemma assign_versions_length s ps pv df :
  length (filter_source s (assign_versions ps pv df))
  = length (filter_source s df).
Proof.
  rewrite <- (length_fmap Df.time), assign_versions_times.
  now rewrite length_fmap.
Qed.

Lemma assign_versions_data ps pv df r :
  r ∈ assign_versions ps pv df ->
  exists r0, r0 ∈ df /\ r = Df.set_version (Df.version r) r0.
Proof.
  revert ps pv. induction df as [|row rest IH]; intros ps pv; simpl.
  - intros H. inversion H.
  - destruct (decide (Df.source row ∈ ps)); simpl; intros H;
      apply elem_of_cons in H as [->|H].
    + exists row. split; [left|]. now destruct row.
    + apply IH in H as (r0 & ? & ?). exists r0. split; [now right|done].
    + exists row. split; [left|]. now destruct row.
    + apply IH in H as (r0 & ? & ?). exists r0. split; [now right|done].
Qed.

Lemma filter_none {A} (P : A -> Prop) `{!forall x, Decision (P x)} (l : list A) :
  Forall (fun x => ~ P x) l -> filter P l = [].
Proof.
  induction 1 as [|x l Hx Hl IH]; [reflexivity|].
  now rewrite filter_cons_False.
Qed.

(** The invariant of the numbering loop over a table grouped by source:
    [cur] is the source of the group being numbered, [pversion] its next
    number, and every source seen so far sorts at or before [cur]. *)
Lemma assign_versions_grouped df : forall ps pv cur s,
  StronglySorted source_le df ->
  Forall (fun x => String.compare x cur <> Gt) ps ->
  Forall (fun r => String.compare cur (Df.source r) <> Gt) df ->
  cur ∈ ps \/ pv = 1 ->
  Df.version <$> filter_source s (assign_versions ps pv df)
  = seqZ (if decide (s = cur) then pv else 1)
         (Z.of_nat (length (filter_source s df))).
Proof.
  unfold filter_source.
  induction df as [|row rest IH]; intros ps pv cur s Hsorted Hps Hdf Hcur.
  { simpl. now rewrite seqZ_nil by lia. }
  apply StronglySorted_inv in Hsorted as [Hsorted Hhead].
  apply Forall_cons in Hdf as [Hrow Hdf].
  simpl. destruct (decide (Df.source row ∈ ps)) as [Hin|Hnin].
  - (* the row continues the current group *)
    assert (Df.source row = cur) as Hsrc.
    { apply string_le_antisym; [|assumption].
      rewrite Forall_forall in Hps. now apply Hps. }
    assert (cur ∈ ps \/ pv + 1 = 1) as Hcur' by (left; congruence).
    pose proof (IH ps (pv + 1) cur s Hsorted Hps Hdf Hcur') as IH'.
    rewrite !filter_cons. simpl.
    destruct (decide (Df.source row = s)) as [Hs|Hs];
      rewrite ?fmap_cons, IH'; simpl length; simpl Df.version.
    + destruct (decide (s = cur)); [|congruence].
      rewrite (seqZ_cons pv) by lia. do 2 f_equal; lia.
    + destruct (decide (s = cur)); [congruence|]. reflexivity.
  - (* the row opens a new group *)
    assert (Forall (fun x => String.compare x (Df.source row) <> Gt)
                   (ps ++ [Df.source row])) as Hps'.
    { apply Forall_app. split.
      - eapply Forall_impl; [exact Hps|]. simpl. intros x Hx.
        eapply string_le_trans; eauto.
      - constructor; [apply string_le_refl|constructor]. }
    assert (Df.source row ∈ ps ++ [Df.source row] \/ 1 + 1 = 1) as Hcur'
      by (left; apply elem_of_app; right; now left).
    pose proof (IH (ps ++ [Df.source row]) (1 + 1) (Df.source row) s
                   Hsorted Hps' Hhead Hcur') as IH'.
    rewrite !filter_cons. simpl.
    destruct (decide (Df.source row = s)) as [Hs|Hs];
      rewrite ?fmap_cons, IH'; simpl length; simpl Df.version.
    + destruct (decide (s = Df.source row)); [|congruence].
      assert ((if decide (s = cur) then pv else 1) = 1) as ->.
      { destruct (decide (s = cur)); [|reflexivity].
        destruct Hcur as [Hcur|Hpv]; [subst; contradiction|assumption]. }
      rewrite (seqZ_cons 1) by lia. do 2 f_equal; lia.
    + destruct (decide (s = Df.source row)); [congruence|].
      destruct (decide (s = cur)) as [Hsc|Hsc]; [|reflexivity].
      destruct Hcur as [Hcur| ->]; [|reflexivity].
      (* [cur] was seen before; no later row can carry it *)
      rewrite filter_none; [now rewrite !seqZ_nil by (simpl; lia)|].
      eapply Forall_impl; [exact Hhead|]. simpl. intros r Hr Hrs.
      apply Hnin. subst s.
      replace (Df.source row) with cur; [assumption|].
      apply string_le_antisym; [assumption|].
      unfold source_le in Hr. now rewrite Hrs in Hr.
Qed.

Lemma newnames_source_time :
  newnames [Source; Time] = [Source; Time; Weight; Index; Version].
Proof. reflexivity. Qed.

Lemma sorted_times_per_source fs s df :
  StronglySorted (row_le (Source :: Time :: fs)) df ->
  StronglySorted Z.le (Df.time <$> filter_source s df).
Proof.
  unfold filter_source.
  induction 1 as [|a l Hs IH Hall]; [constructor|].
  rewrite filter_cons. destruct (decide (Df.source a = s)) as [Ha|Ha]; [|exact IH].
  rewrite fmap_cons. constructor; [exact IH|].
  apply Forall_fmap, Forall_forall. intros r Hr.
  apply list_elem_of_filter in Hr as [Hrs Hr].
  rewrite Forall_forall in Hall. simpl.
  eapply row_le_source_time; [now apply Hall|congruence].
Qed.

Lemma build_df_index raw : Df.index <$> build_df raw = seq 0 (length raw).
Proof.
  unfold build_df. rewrite fmap_imap.
  rewrite (imap_ext _ (fun j _ => id j)) by done.
  now rewrite imap_seq_0, list_fmap_id.
Qed.

Lemma build_df_elem raw r :
  r ∈ build_df raw ->
  exists p, raw !! Df.index r = Some p /\ r = row_of (Df.index r) p.
Proof.
  unfold build_df. intros H.
  apply list_elem_of_lookup in H as [i Hi].
  rewrite list_lookup_imap in Hi.
  destruct (raw !! i) as [p|] eqn:Hp; [|discriminate].
  simpl in Hi. injection Hi as <-. exists p. simpl. auto.
Qed.

Lemma version_table_index raw :
  Df.index <$> version_table raw ≡ₚ seq 0 (length raw).
Proof.
  unfold version_table.
  rewrite assign_versions_index, <- build_df_index.
  apply fmap_Permutation, sort_perm.
Qed.

Lemma version_table_elem raw r :
  r ∈ version_table raw ->
  exists p, raw !! Df.index r = Some p /\
            r = Df.set_version (Df.version r) (row_of (Df.index r) p).
Proof.
  unfold version_table. intros Hr.
  apply assign_versions_data in Hr as (r0 & Hr0 & Hr).
  rewrite sort_perm in Hr0.
  apply build_df_elem in Hr0 as (p & Hp & Hr0').
  assert (Df.index r = Df.index r0) as Hi by (rewrite Hr; reflexivity).
  exists p. rewrite Hi. split; [assumption|].
  now rewrite <- Hr0'.
Qed.

Lemma filter_source_imap (f : nat -> RawSubmission -> Row) s raw :
  (forall i d, Df.source (f i d) = S64 (source d)) ->
  length (filter_source s (imap f raw)) = length (submissions_of s raw).
Proof.
  unfold filter_source, submissions_of.
  revert f. induction raw as [|d raw IH]; intros f Hf; [reflexivity|].
  rewrite imap_cons, !filter_cons, Hf.
  destruct (decide (S64 (source d) = s)); cbn [length]; rewrite IH; auto.
  all: intros i d'; apply Hf.
Qed.

(** The group of a source has one row per submission stored under that
    source. *)
Lemma source_group_length raw s :
  length (source_group s raw) = length (submissions_of s raw).
Proof.
  unfold source_group, version_table.
  rewrite assign_versions_length.
  unfold filter_source. rewrite (sort_perm [Source; Time] (build_df raw)).
  apply (filter_source_imap row_of). reflexivity.
Qed.

(** C3 (amended): the table numbers the submissions by stored source, the
    first 64 bytes of the source without trailing NUL bytes.  For every
    stored source [s] the table has one row per submission stored under [s];
    in table order these rows have non-decreasing stored update times and
    carry the versions 1, 2, 3, ... without gaps, the numbering starting
    again at 1 for every stored source.  The table holds exactly one row per
    submission, and each row carries the stored weight, source and update
    time of the submission at its index. *)
Theorem version_table_per_source (raw : list RawSubmission) (s : string) :
  let table := version_table raw in
  let rows := filter_source s table in
  Df.version <$> rows = seqZ 1 (Z.of_nat (length rows)) /\
  StronglySorted Z.le (Df.time <$> rows) /\
  length rows = length (submissions_of s raw) /\
  Df.index <$> table ≡ₚ seq 0 (length raw) /\
  (forall r, r ∈ table ->
     exists p, raw !! Df.index r = Some p /\
               Df.weight r = int32 (preferredWeight p) /\
               Df.source r = S64 (source p) /\
               Df.time r = int64 (updateTime p)).
Proof.
  cbv zeta. split; [|split; [|split; [|split]]].
  - unfold version_table.
    pose proof (sort_sorted [Source; Time] (build_df raw)) as Hsorted.
    rewrite newnames_source_time in Hsorted.
    rewrite assign_versions_length.
    rewrite (assign_versions_grouped _ [] 1 EmptyString s).
    + now destruct (decide (s = EmptyString)).
    + eapply StronglySorted_weaken; [|exact Hsorted].
      intros a b. apply row_le_source.
    + constructor.
    + apply Forall_forall. intros r _. apply empty_string_le.
    + now right.
  - unfold version_table.
    pose proof (sort_sorted [Source; Time] (build_df raw)) as Hsorted.
    rewrite newnames_source_time in Hsorted.
    rewrite assign_versions_times.
    eapply sorted_times_per_source; exact Hsorted.
  - apply (source_group_length raw s).
  - apply version_table_index.
  - intros r Hr. destruct (version_table_elem raw r Hr) as (p & Hp & Hrp).
    exists p. split; [exact Hp|]. rewrite Hrp. repeat split.
Qed.

(** C3 as stated fails: two submissions whose sources differ only in their
    65th byte are stored under one source and numbered 1 and 2, so the
    submissions of the second source read 2, not 1. *)
Lemma full_sources_share_numbering :
  long_source_x <> long_source_y /\
  Df.source <$> version_table long_raw
    = [string_mul "n" 64; string_mul "n" 64] /\
  versions_by_full_source long_source_y long_raw = [2] /\
  ~ numbered_per_source long_raw.
Proof.
  assert (versions_by_full_source long_source_y long_raw = [2]) as Hy
    by (vm_compute; reflexivity).
  split; [discriminate|]. split; [vm_compute; reflexivity|].
  split; [exact Hy|].
  intros H. specialize (H long_source_y).
  rewrite Hy in H. simpl in H.
  assert ([2] = seqZ 1 (Z.of_nat 1)) as Habs by (apply H; right; left).
  vm_compute in Habs. discriminate.
Qed.

(** ** Version resolution within a group *)

Lemma newnames_weight_time :
  newnames [Weight; Time] = [Weight; Time; Source; Index; Version].
Proof. reflexivity. Qed.

Lemma row_le_weight_time fs a b :
  row_le (Weight :: Time :: fs) a b ->
  Df.weight a < Df.weight b \/
  (Df.weight a = Df.weight b /\ Df.time a <= Df.time b).
Proof.
  unfold row_le. simpl.
  destruct (Z.compare_spec (Df.weight a) (Df.weight b)) as [Hw|Hw|Hw];
    [|now left|congruence].
  destruct (Z.compare_spec (Df.time a) (Df.time b)) as [Ht|Ht|Ht];
    intros H; right; split; try lia. congruence.
Qed.

Lemma row_le_refl names a : row_le names a a.
Proof. destruct (row_le_total names a a); assumption. Qed.

(** The last row of a sorted non-empty table is a maximum of the table. *)
Lemma sort_last order df :
  df <> [] ->
  exists r, last (sort order df) = Some r /\ r ∈ df /\
            forall r', r' ∈ df -> row_le (newnames order) r' r.
Proof.
  intros Hne.
  destruct (last (sort order df)) as [r|] eqn:Hlast.
  - exists r. split; [reflexivity|].
    pose proof Hlast as Hl. apply last_Some in Hl as [l' Hl'].
    pose proof (sort_sorted order df) as Hs. rewrite Hl' in Hs.
    split.
    + rewrite <- (sort_perm order df), Hl'. apply elem_of_app. right. now left.
    + intros r' Hr'. rewrite <- (sort_perm order df), Hl' in Hr'.
      apply elem_of_app in Hr' as [Hr'|Hr'].
      * eapply StronglySorted_app_1_elem_of; [exact Hs|exact Hr'|now left].
      * apply list_elem_of_singleton in Hr' as ->. apply row_le_refl.
  - apply last_None in Hlast. exfalso. apply Hne.
    apply Permutation_nil_r. now rewrite <- Hlast, sort_perm.
Qed.

Lemma Product_init_Some st product_name version l d :
  dicts st !! l = Some d ->
  exists st' p,
    Product_init st product_name version l = Some (st', p) /\
    _product_name p = product_name /\ _version p = version /\
    _product p = fresh (dom (dicts st)) /\
    dicts st' = <[_product p := d]> (dicts st) /\
    propertymaps st' = propertymaps st /\
    contentmaps st' = contentmaps st.
Proof.
  intros Hd. unfold Product_init, dict_copy. rewrite Hd. simpl.
  eexists _, _. repeat split.
Qed.

(** C8: for every non-empty group of rows (in particular the rows of a
    single source), version policy PREFERRED selects exactly one row, a row
    of maximum weight and, among the rows of that weight, of latest update
    time; exactly one Product is built from it, carrying that row's version
    and a copy of the submission at that row's index. *)
Theorem preferred_version_of_group (df : list Row) (Hne : df <> []) :
  exists row,
    resolve_version VersionOption.PREFERRED df = Returns [row] /\
    row ∈ df /\
    (forall r, r ∈ df ->
       Df.weight r < Df.weight row \/
       (Df.weight r = Df.weight row /\ Df.time r <= Df.time row)) /\
    (forall st productName locs l d,
       locs !! Df.index row = Some l -> dicts st !! l = Some d ->
       exists st' p,
         make_products st productName locs [row] = (st', Returns [p]) /\
         product_view st' p = (productName, Df.version row, deep_dict st l)).
Proof.
  destruct (sort_last [Weight; Time] df Hne) as (row & Hlast & Hin & Hmax).
  exists row. unfold resolve_version. simpl. rewrite Hlast.
  repeat split; [assumption| |].
  - intros r Hr. apply Hmax in Hr. rewrite newnames_weight_time in Hr.
    eapply row_le_weight_time; eassumption.
  - intros st productName locs l d Hl Hd. simpl. rewrite Hl.
    destruct (Product_init_Some st productName (Df.version row) l d Hd)
      as (st' & p & -> & Hn & Hv & Hp & Hds & Hps & Hcs).
    exists st', p. split; [reflexivity|].
    unfold product_view, deep_dict. rewrite Hn, Hv, Hds, Hps, Hcs.
    rewrite lookup_insert_eq, Hd. reflexivity.
Qed.

Lemma preferred_version_of_group_witness :
  exists row,
    resolve_version VersionOption.PREFERRED
      (filter_source "us"
         (version_table [origin_us_100; origin_us_200; origin_ci_150]))
    = Returns [row] /\ Df.index row = 1%nat /\ Df.version row = 2.
Proof.
  destruct (preferred_version_of_group
              (filter_source "us"
                 (version_table [origin_us_100; origin_us_200; origin_ci_150])))
    as (row & Hrow & _); [vm_compute; discriminate|].
  exists row. split; [exact Hrow|].
  vm_compute in Hrow. injection Hrow as <-. split; reflexivity.
Defined.

(** ** Content lookup *)

Section contents_properties.

Variable re_search : string -> string -> bool.
Variable urlparse_path : string -> string.

#[local] Abbreviation fname := (fname_of urlparse_path).
#[local] Abbreviation flen := (fname_length urlparse_path).
#[local] Abbreviation hit := (matches re_search).
#[local] Abbreviation nstep := (name_step re_search urlparse_path).
#[local] Abbreviation ustep := (url_step re_search urlparse_path).
#[local] Abbreviation nscan := (scan_name re_search urlparse_path).
#[local] Abbreviation uscan := (scan_url re_search urlparse_path).

Lemma sentinel_length : String.length (string_mul "a" 1000) = 1000%nat.
Proof. reflexivity. Qed.

(** What [nstep] does to the state, case by case. *)
Lemma name_step_cases regexp cn found item :
  (hit regexp item /\ (flen item < String.length cn)%nat /\
   nstep regexp (cn, found) item = (fname (snd item), true)) \/
  ((~ hit regexp item \/ (String.length cn <= flen item)%nat) /\
   nstep regexp (cn, found) item = (cn, found)).
Proof.
  unfold name_step, matches, fname_length.
  destruct item as [key content]. simpl.
  destruct (re_search (String.append regexp "$") key) eqn:Hm; simpl.
  - destruct (Nat.ltb_spec (String.length (fname content)) (String.length cn)).
    + left. auto.
    + right. auto.
  - right. split; [left; discriminate|reflexivity].
Qed.

Lemma url_step_name regexp cn found cu item :
  fst (ustep regexp (cn, found, cu) item) = nstep regexp (cn, found) item.
Proof.
  unfold url_step, name_step. destruct item as [key content].
  destruct (negb _); [reflexivity|]. simpl.
  now destruct (_ <? _)%nat.
Qed.

(** [get_content_url] runs the scan of [get_content_name] and carries the
    URL along. *)
Lemma fold_url_step_name regexp items : forall cn found cu,
  fst (fold_left (ustep regexp) items (cn, found, cu))
  = fold_left (nstep regexp) items (cn, found).
Proof.
  induction items as [|item items IH]; intros cn found cu; [reflexivity|].
  cbn [fold_left]. pose proof (url_step_name regexp cn found cu item) as H.
  destruct (ustep regexp (cn, found, cu) item) as [[cn' found'] cu'].
  cbn [fst] in H. rewrite <- H. apply IH.
Qed.

Lemma scan_url_found regexp items :
  uscan regexp items = None <-> nscan regexp items = None.
Proof.
  unfold scan_url, scan_name.
  pose proof (fold_url_step_name regexp items (string_mul "a" 1000) false EmptyString) as H.
  destruct (fold_left (ustep regexp) items _) as [[cn found] cu].
  cbn [fst] in H. rewrite <- H. now destruct found.
Qed.

(** The scan keeps a name no longer than the sentinel, and strictly shorter
    once something was found. *)
Lemma fold_name_step_bound regexp items : forall cn found cn' found',
  fold_left (nstep regexp) items (cn, found) = (cn', found') ->
  (String.length cn <= 1000)%nat ->
  (found = true -> (String.length cn < 1000)%nat) ->
  (String.length cn' <= 1000)%nat /\
  (found' = true -> (String.length cn' < 1000)%nat).
Proof.
  induction items as [|item items IH]; intros cn found cn' found' Hfold Hle Hlt.
  - simpl in Hfold. injection Hfold as <- <-. auto.
  - cbn [fold_left] in Hfold.
    destruct (name_step_cases regexp cn found item) as [(_ & Hl & Hs)|(_ & Hs)];
      rewrite Hs in Hfold; eapply IH; try exact Hfold; auto.
    + unfold fname_length in Hl. lia.
    + unfold fname_length in Hl. intros _. lia.
Qed.

Lemma fold_name_step_long regexp items : forall cn found,
  (String.length cn <= 1000)%nat ->
  Forall (fun item => (1000 <= flen item)%nat) items ->
  fold_left (nstep regexp) items (cn, found) = (cn, found).
Proof.
  induction items as [|item items IH]; intros cn found Hle Hall; [reflexivity|].
  apply Forall_cons in Hall as [Hitem Hall]. cbn [fold_left].
  destruct (name_step_cases regexp cn found item) as [(_ & Hl & _)|(_ & ->)];
    [lia|auto].
Qed.

(** C10: when every content entry has a file name of 1000 characters or
    more, [get_content_name] and [get_content_url] return None, whether or
    not keys match: the scan starts from a sentinel of 1000 characters and
    takes strictly shorter names only.  A name that [get_content_name]
    returns is therefore always shorter than 1000 characters. *)
Theorem sentinel_bounds_content_name (st : store) (p : Product)
    (regexp : string) (items : list (string * Content))
    (Hitems : contents_items st p = Some items) :
  (Forall (fun item => (1000 <= flen item)%nat) items ->
     get_content_name re_search urlparse_path st p regexp = Returns None /\
     get_content_url re_search urlparse_path st p regexp = Returns None) /\
  (forall name,
     get_content_name re_search urlparse_path st p regexp = Returns (Some name) ->
     (String.length name < 1000)%nat).
Proof.
  unfold get_content_name, get_content_url. rewrite Hitems. split.
  - intros Hall.
    assert (nscan regexp items = None) as Hnone.
    { unfold scan_name.
      rewrite fold_name_step_long; [reflexivity|rewrite sentinel_length; lia|exact Hall]. }
    split; f_equal; [exact Hnone|now apply scan_url_found].
  - intros name Hname. injection Hname as Hname.
    unfold scan_name in Hname.
    destruct (fold_left (nstep regexp) items _) as [cn found] eqn:Hfold.
    destruct found; [|discriminate]. injection Hname as <-.
    destruct (fold_name_step_bound regexp items _ _ _ _ Hfold) as [_ Hlt];
      [rewrite sentinel_length; lia|discriminate|auto].
Qed.

Lemma fold_name_step_before L regexp pre : forall cn found,
  (L < String.length cn)%nat ->
  (forall x, x ∈ pre -> hit regexp x -> (L < flen x)%nat) ->
  exists cn' found',
    fold_left (nstep regexp) pre (cn, found) = (cn', found') /\
    (L < String.length cn')%nat.
Proof.
  induction pre as [|item pre IH]; intros cn found Hcn Hpre; [simpl; eauto|].
  cbn [fold_left].
  destruct (name_step_cases regexp cn found item) as [(Hm & _ & ->)|(_ & ->)];
    apply IH; auto.
  - apply (Hpre item); [now left|exact Hm].
  - intros x Hx. apply Hpre. now right.
  - intros x Hx. apply Hpre. now right.
Qed.

Lemma fold_name_step_after regexp post : forall cn found,
  (forall x, x ∈ post -> hit regexp x -> (String.length cn <= flen x)%nat) ->
  fold_left (nstep regexp) post (cn, found) = (cn, found).
Proof.
  induction post as [|item post IH]; intros cn found Hpost; [reflexivity|].
  cbn [fold_left].
  destruct (name_step_cases regexp cn found item) as [(Hm & Hl & _)|(_ & ->)].
  - specialize (Hpost item ltac:(now left) Hm). lia.
  - apply IH. intros x Hx. apply Hpost. now right.
Qed.

(** C4 (amended): among the matching content entries whose file names have
    the minimum length, [get_content_name] returns the file name of the
    first one in iteration order, provided that length is below 1000: a later
    entry replaces the current name only when strictly shorter. *)
Theorem first_shortest_match_wins (st : store) (p : Product) (regexp : string)
    (pre post : list (string * Content)) (item : string * Content)
    (Hitems : contents_items st p = Some (pre ++ item :: post))
    (Hmatch : hit regexp item)
    (Hshort : (flen item < 1000)%nat)
    (Hpre : forall x, x ∈ pre -> hit regexp x ->
                      (flen item < flen x)%nat)
    (Hpost : forall x, x ∈ post -> hit regexp x ->
                       (flen item <= flen x)%nat) :
  get_content_name re_search urlparse_path st p regexp
  = Returns (Some (fname (snd item))).
Proof.
  unfold get_content_name. rewrite Hitems. f_equal.
  unfold scan_name. rewrite fold_left_app. cbn [fold_left].
  destruct (fold_name_step_before (flen item) regexp pre
              (string_mul "a" 1000) false) as (cn & found & -> & Hcn);
    [rewrite sentinel_length; exact Hshort|exact Hpre|].
  destruct (name_step_cases regexp cn found item) as [(_ & _ & ->)|([Hn|Hl] & _)];
    [|contradiction|lia].
  rewrite fold_name_step_after; [reflexivity|exact Hpost].
Qed.

End contents_properties.

Lemma sentinel_bounds_content_name_witness :
  get_content_name search_literal path_of_plain_url long_store long_product "xml"
    = Returns None /\
  get_content_url search_literal path_of_plain_url long_store long_product "xml"
    = Returns None.
Proof.
  destruct (sentinel_bounds_content_name search_literal path_of_plain_url
              long_store long_product "xml" long_contents eq_refl) as [H _].
  apply H. apply Forall_cons. split; [|apply Forall_nil_2].
  apply Nat.leb_le. vm_compute. reflexivity.
Defined.

Lemma first_shortest_match_wins_witness :
  get_content_name search_literal path_of_plain_url tie_store tie_product "xml"
  = Returns (Some "a.xml").
Proof.
  apply (first_shortest_match_wins search_literal path_of_plain_url
           tie_store tie_product "xml" [] [tie_second] tie_first).
  - reflexivity.
  - reflexivity.
  - apply Nat.ltb_lt. vm_compute. reflexivity.
  - intros x Hx. inversion Hx.
  - intros x Hx _. apply list_elem_of_singleton in Hx as ->.
    apply Nat.leb_le. vm_compute. reflexivity.
Defined.

(** C4 as stated fails: with two matching entries of equal, minimal
    file-name length the scan returns the first one, "a.xml", although
    "b.xml" is the last. *)
Lemma last_match_wins_fails :
  contents_items tie_store tie_product = Some [tie_first; tie_second] /\
  get_content_name search_literal path_of_plain_url tie_store tie_product "xml"
    = Returns (Some "a.xml") /\
  ~ last_match_wins search_literal path_of_plain_url "xml" [tie_first; tie_second].
Proof.
  split; [reflexivity|]. split; [reflexivity|].
  intros H.
  specialize (H [tie_first] tie_second [] eq_refl).
  assert (scan_name search_literal path_of_plain_url "xml" [tie_first; tie_second]
          = Some "b.xml") as Hb.
  { apply H.
    - reflexivity.
    - intros x Hx _. apply list_elem_of_singleton in Hx as ->.
      apply Nat.leb_le. vm_compute. reflexivity.
    - intros x Hx. inversion Hx.
    - exists tie_first. split; [now left|]. split; reflexivity. }
  vm_compute in Hb. discriminate.
Qed.

(** ** Products and the store *)

Lemma store_extends_refl st : store_extends st st.
Proof. split; [reflexivity|split; reflexivity]. Qed.

Lemma store_extends_trans st1 st2 st3 :
  store_extends st1 st2 -> store_extends st2 st3 -> store_extends st1 st3.
Proof.
  intros (H1 & H2 & H3) (H4 & H5 & H6). repeat split.
  - etrans; eassumption.
  - congruence.
  - congruence.
Qed.

Lemma deep_dict_extends st st' l :
  store_extends st st' -> is_Some (dicts st !! l) ->
  deep_dict st' l = deep_dict st l.
Proof.
  intros (Hsub & Hp & Hc) [d Hd]. unfold deep_dict.
  rewrite (lookup_weaken _ _ _ _ Hd Hsub), Hd, Hp, Hc. reflexivity.
Qed.

Lemma deep_dict_is_Some st l :
  is_Some (deep_dict st l) <-> is_Some (dicts st !! l).
Proof.
  unfold deep_dict. destruct (dicts st !! l); simpl; split; intros [? ?];
    eauto; discriminate.
Qed.

Lemma Product_init_extends st product_name version l st' p :
  Product_init st product_name version l = Some (st', p) ->
  store_extends st st' /\
  (_product p ∉ dom (dicts st)) /\
  product_view st' p = (product_name, version, deep_dict st l).
Proof.
  unfold Product_init, dict_copy.
  destruct (dicts st !! l) as [d|] eqn:Hd; [|discriminate]. simpl.
  intros H. injection H as <- <-. simpl.
  pose proof (is_fresh (dom (dicts st))) as Hfresh.
  repeat split.
  - apply insert_subseteq. now apply not_elem_of_dom.
  - exact Hfresh.
  - unfold product_view, deep_dict. simpl.
    now rewrite lookup_insert_eq, Hd.
Qed.

(** Where [make_products] finds every selected submission, it returns one
    product per row, in order, each showing the row's version and the data
    of the submission at the row's index; the store only grows. *)
Lemma make_products_spec productName locs rows : forall st,
  (forall row, row ∈ rows ->
     exists l, locs !! Df.index row = Some l /\ is_Some (dicts st !! l)) ->
  exists st' ps,
    make_products st productName locs rows = (st', Returns ps) /\
    store_extends st st' /\
    product_view st' <$> ps
    = (fun row => (productName, Df.version row,
                   locs !! Df.index row ≫= deep_dict st)) <$> rows.
Proof.
  induction rows as [|row rows IH]; intros st Hrows.
  - exists st, []. split; [reflexivity|]. split; [apply store_extends_refl|done].
  - destruct (Hrows row ltac:(now left)) as (l & Hl & [d Hd]).
    cbn [make_products]. rewrite Hl.
    destruct (Product_init st productName (Df.version row) l)
      as [[st1 p]|] eqn:Hinit.
    2:{ unfold Product_init, dict_copy in Hinit. rewrite Hd in Hinit.
        discriminate. }
    apply Product_init_extends in Hinit as (Hext1 & _ & Hview).
    destruct (IH st1) as (st' & ps & Hmk & Hext & Hviews).
    { intros r Hr. destruct (Hrows r ltac:(now right)) as (l' & Hl' & [d' Hd']).
      exists l'. split; [assumption|]. exists d'.
      destruct Hext1 as (Hsub & _). eapply lookup_weaken; eassumption. }
    rewrite Hmk. exists st', (p :: ps). split; [reflexivity|].
    split; [eapply store_extends_trans; eassumption|].
    rewrite !fmap_cons. f_equal.
    + rewrite Hl. cbn [mbind option_bind].
      unfold product_view in *.
      injection Hview as Hn Hv Hdd. rewrite Hn, Hv. f_equal.
      rewrite (deep_dict_extends st1 st' _ Hext); [exact Hdd|].
      apply deep_dict_is_Some. rewrite Hdd. apply deep_dict_is_Some. eauto.
    + rewrite Hviews. apply list_fmap_ext. intros i r Hr.
      apply list_elem_of_lookup_2 in Hr.
      destruct (Hrows r ltac:(now right)) as (l' & Hl' & Hd').
      rewrite Hl'. cbn [mbind option_bind]. f_equal.
      now apply deep_dict_extends.
Qed.

(** ** What [get_product] selects, and what it leaves behind *)

Lemma select_source_subset raw df source_arg df' :
  select_source raw df source_arg = Returns df' ->
  forall r, r ∈ df' -> r ∈ df.
Proof.
  unfold select_source, filter_source.
  assert (forall (l : list Row) o,
            outcome_bind o (fun df0 => match df0 with
                                       | [] => Raises (AttributeError (NoProductsForSource source_arg))
                                       | _ => Returns df0
                                       end) = Returns df' ->
            (forall l0, o = Returns l0 -> forall r, r ∈ l0 -> r ∈ l) ->
            forall r, r ∈ df' -> r ∈ l) as Hbind.
  { intros l [l0| |]; simpl; try discriminate. intros H Hsub.
    destruct l0; [discriminate|]. injection H as <-. now apply Hsub. }
  intros H. apply (Hbind df _ H). clear H Hbind. intros l0.
  destruct (String.eqb source_arg "preferred").
  - destruct (argmax (Df.weight <$> df)) as [i| |]; simpl; try discriminate.
    destruct (raw !! i) as [product|]; [|discriminate].
    intros H r Hr. injection H as <-. rewrite sort_perm in Hr.
    now apply list_elem_of_filter in Hr as [_ Hr].
  - destruct (String.eqb source_arg "all"); intros H r Hr; injection H as <-;
      rewrite sort_perm in Hr; [assumption|].
    now apply list_elem_of_filter in Hr as [_ Hr].
Qed.

Lemma resolve_version_subset version df rows :
  resolve_version version df = Returns rows ->
  forall r, r ∈ rows -> r ∈ df.
Proof.
  unfold resolve_version.
  destruct (version =? VersionOption.PREFERRED)%Z.
  { destruct (last (sort [Weight; Time] df)) as [row|] eqn:Hlast; [|discriminate].
    intros H r Hr. injection H as <-. apply list_elem_of_singleton in Hr as ->.
    apply last_Some_elem_of in Hlast. now rewrite sort_perm in Hlast. }
  destruct (version =? VersionOption.LAST)%Z.
  { destruct (last df) as [row|] eqn:Hlast; [|discriminate].
    intros H r Hr. injection H as <-. apply list_elem_of_singleton in Hr as ->.
    now apply last_Some_elem_of in Hlast. }
  destruct (version =? VersionOption.FIRST)%Z.
  { destruct (head df) as [row|] eqn:Hhead; [|discriminate].
    intros H r Hr. injection H as <-. apply list_elem_of_singleton in Hr as ->.
    now apply head_Some_elem_of in Hhead. }
  destruct (version =? VersionOption.ALL)%Z; discriminate.
Qed.

Lemma resolve_sources_subset version df usources : forall rows,
  resolve_sources version df usources = Returns rows ->
  forall r, r ∈ rows -> r ∈ df.
Proof.
  induction usources as [|s rest IH]; intros rows; simpl.
  - intros H r Hr. injection H as <-. inversion Hr.
  - destruct (resolve_version version _) as [rows1| |] eqn:H1; simpl;
      try discriminate.
    destruct (resolve_sources version df rest) as [rows2| |] eqn:H2; simpl;
      try discriminate.
    intros H r Hr. injection H as <-. apply elem_of_app in Hr as [Hr|Hr].
    + eapply resolve_version_subset in Hr; [|exact H1].
      rewrite sort_perm in Hr. unfold filter_source in Hr.
      now apply list_elem_of_filter in Hr as [_ Hr].
    + eapply IH; eauto.
Qed.

Lemma select_rows_subset set_iter raw source_arg version rows :
  select_rows set_iter raw source_arg version = Returns rows ->
  forall r, r ∈ rows -> r ∈ version_table raw.
Proof.
  unfold select_rows.
  destruct (select_source raw (version_table raw) source_arg) as [df| |] eqn:Hsel;
    simpl; try discriminate.
  intros H r Hr. eapply select_source_subset; [exact Hsel|].
  destruct (String.eqb source_arg "all").
  - eapply resolve_sources_subset; eauto.
  - eapply resolve_version_subset; eauto.
Qed.

Lemma read_submissions_lookup st locs raw i p :
  read_submissions st locs = Some raw -> raw !! i = Some p ->
  exists l, locs !! i = Some l /\ dicts st !! l = Some p.
Proof.
  unfold read_submissions. intros H Hp. apply mapM_Some_1 in H.
  destruct (Forall2_lookup_r _ _ _ _ _ H Hp) as (l & Hl & Hd). eauto.
Qed.

Lemma read_submissions_wf st ev productName locs :
  event_wf st ev -> products ev !! productName = Some locs ->
  is_Some (read_submissions st locs).
Proof.
  intros Hwf Hlocs. apply mapM_is_Some_2, Forall_forall.
  intros l Hl. simpl. eapply Hwf; eauto.
Qed.

Lemma read_submissions_extends st st' locs raw :
  store_extends st st' -> read_submissions st locs = Some raw ->
  read_submissions st' locs = Some raw.
Proof.
  intros (Hsub & _) H. unfold read_submissions in *.
  apply mapM_Some_1 in H. apply mapM_Some_2.
  eapply Forall2_impl; [exact H|]. simpl. intros l d Hd.
  eapply lookup_weaken; eassumption.
Qed.

Lemma event_wf_extends st st' ev :
  store_extends st st' -> event_wf st ev -> event_wf st' ev.
Proof.
  intros (Hsub & _) Hwf productName locs l Hlocs Hl.
  destruct (Hwf productName locs l Hlocs Hl) as [d Hd].
  exists d. eapply lookup_weaken; eassumption.
Qed.

Lemma raw_data_extends st st' ev :
  event_wf st ev -> store_extends st st' -> raw_data st' ev = raw_data st ev.
Proof.
  intros Hwf Hext. unfold raw_data.
  apply map_fmap_ext. intros productName locs Hlocs.
  apply list_fmap_ext. intros i l Hl.
  apply deep_dict_extends; [assumption|].
  eapply Hwf; [exact Hlocs|]. eapply list_elem_of_lookup_2; eassumption.
Qed.

(** A call that selects rows returns one product per selected row. *)
Lemma get_product_returns set_iter st ev productName source_arg version
    locs raw rows :
  products ev !! productName = Some locs ->
  read_submissions st locs = Some raw ->
  select_rows set_iter raw source_arg version = Returns rows ->
  exists st' ps,
    get_product set_iter st ev productName source_arg version
      = (st', Returns ps) /\
    store_extends st st' /\
    product_view st' <$> ps
    = (fun row => (productName, Df.version row,
                   locs !! Df.index row ≫= deep_dict st)) <$> rows.
Proof.
  intros Hlocs Hraw Hsel. unfold get_product. rewrite Hlocs, Hraw, Hsel.
  destruct (make_products_spec productName locs rows st)
    as (st' & ps & -> & Hext & Hviews).
  { intros row Hrow.
    eapply select_rows_subset in Hrow; [|exact Hsel].
    apply version_table_elem in Hrow as (p & Hp & _).
    destruct (read_submissions_lookup _ _ _ _ _ Hraw Hp) as (l & Hl & Hd).
    eauto. }
  eauto.
Qed.

Lemma has_product_lookup ev productName :
  has_product ev productName = true <-> is_Some (products ev !! productName).
Proof. unfold has_product. apply bool_decide_eq_true. Qed.

(** Runs a call of [get_product] whose selection is known not to return
    rows. *)
Ltac run_get_product H Hlocs Hraw Hsel :=
  unfold get_product in H; rewrite Hlocs, Hraw, Hsel in H;
  injection H as <- <-.

Lemma get_product_repeatable set_iter st ev productName source_arg version
    st1 r1 st2 r2 :
  event_wf st ev ->
  get_product set_iter st ev productName source_arg version = (st1, r1) ->
  get_product set_iter st1 ev productName source_arg version = (st2, r2) ->
  outcome_map (fmap (product_view st1)) r1
    = outcome_map (fmap (product_view st2)) r2 /\
  raw_data st1 ev = raw_data st ev /\
  raw_data st2 ev = raw_data st ev.
Proof.
  intros Hwf H1 H2.
  destruct (products ev !! productName) as [locs|] eqn:Hlocs.
  2:{ unfold get_product in H1, H2. rewrite Hlocs in H1, H2.
      injection H1 as <- <-. injection H2 as <- <-. auto. }
  destruct (read_submissions_wf st ev productName locs Hwf Hlocs) as [raw Hraw].
  destruct (select_rows set_iter raw source_arg version) as [rows|e|] eqn:Hsel.
  - destruct (get_product_returns set_iter st ev productName source_arg version
                locs raw rows Hlocs Hraw Hsel) as (st1' & ps1 & E1 & Hext1 & Hv1).
    rewrite E1 in H1. injection H1 as <- <-.
    pose proof (read_submissions_extends _ _ _ _ Hext1 Hraw) as Hraw1.
    destruct (get_product_returns set_iter st1' ev productName source_arg version
                locs raw rows Hlocs Hraw1 Hsel) as (st2' & ps2 & E2 & Hext2 & Hv2).
    rewrite E2 in H2. injection H2 as <- <-.
    pose proof (event_wf_extends _ _ _ Hext1 Hwf) as Hwf1.
    split; [|split].
    + simpl. f_equal. rewrite Hv1, Hv2. apply list_fmap_ext. intros i row Hrow.
      f_equal. apply list_elem_of_lookup_2 in Hrow.
      eapply select_rows_subset in Hrow; [|exact Hsel].
      apply version_table_elem in Hrow as (p & Hp & _).
      destruct (read_submissions_lookup _ _ _ _ _ Hraw Hp) as (l & -> & Hd).
      cbn [mbind option_bind]. symmetry. apply deep_dict_extends; eauto.
    + now apply raw_data_extends.
    + rewrite (raw_data_extends st1' st2' ev Hwf1 Hext2).
      now apply raw_data_extends.
  - run_get_product H1 Hlocs Hraw Hsel. run_get_product H2 Hlocs Hraw Hsel.
    auto.
  - run_get_product H1 Hlocs Hraw Hsel. run_get_product H2 Hlocs Hraw Hsel.
    auto.
Qed.

Lemma event_wf_check st ev :
  map_Forall (fun _ locs => Forall (fun l => is_Some (dicts st !! l)) locs)
             (products ev) ->
  event_wf st ev.
Proof.
  intros H productName locs l Hlocs Hl.
  specialize (H productName locs Hlocs). simpl in H.
  rewrite Forall_forall in H. now apply H.
Qed.

Lemma example_event_wf : event_wf example_store example_event.
Proof.
  apply event_wf_check.
  apply (bool_decide_unpack _). vm_compute. exact I.
Defined.

(** C9: on a well-formed document, two successive calls of [get_product]
    with source 'preferred' and version PREFERRED give the same outcome: the
    same exception, or products that show the same name, version and data;
    and neither call changes the raw data of the event. *)
Theorem preferred_selection_repeatable (set_iter : list string -> list string)
    (st : store) (ev : DetailEvent) (productName : string)
    (st1 st2 : store) (r1 r2 : outcome (list Product))
    (Hwf : event_wf st ev)
    (Hfirst : get_product set_iter st ev productName "preferred"
                VersionOption.PREFERRED = (st1, r1))
    (Hsecond : get_product set_iter st1 ev productName "preferred"
                 VersionOption.PREFERRED = (st2, r2)) :
  outcome_map (fmap (product_view st1)) r1
    = outcome_map (fmap (product_view st2)) r2 /\
  raw_data st1 ev = raw_data st ev /\
  raw_data st2 ev = raw_data st ev.
Proof. eapply get_product_repeatable; eassumption. Qed.

Lemma preferred_selection_repeatable_witness :
  let c1 := get_product first_seen example_store example_event "origin"
              "preferred" VersionOption.PREFERRED in
  let c2 := get_product first_seen (fst c1) example_event "origin"
              "preferred" VersionOption.PREFERRED in
  outcome_map (fmap (product_view (fst c1))) (snd c1)
    = outcome_map (fmap (product_view (fst c2))) (snd c2) /\
  raw_data (fst c1) example_event = raw_data example_store example_event /\
  raw_data (fst c2) example_event = raw_data example_store example_event.
Proof.
  cbv zeta.
  apply (preferred_selection_repeatable first_seen example_store example_event
           "origin" _ _ _ _ example_event_wf);
    apply surjective_pairing.
Defined.

(** ** Copy semantics of [Product] *)

(** Assignments to the keys of a dictionary that the event does not refer
    to leave the event's raw data alone. *)
Lemma mutate_top_level_frame st ev p m :
  (forall productName locs,
     products ev !! productName = Some locs -> _product p ∉ locs) ->
  top_level m = true ->
  raw_data (mutate st p m) ev = raw_data st ev.
Proof.
  intros Hfresh Htop. unfold raw_data.
  apply map_fmap_ext. intros productName locs Hlocs.
  apply list_fmap_ext. intros i l Hl.
  assert (l <> _product p) as Hne.
  { intros ->. eapply Hfresh; [exact Hlocs|].
    eapply list_elem_of_lookup_2; eassumption. }
  unfold mutate, deep_dict.
  destruct (dicts st !! _product p) as [d|]; [|reflexivity].
  destruct m; try discriminate; simpl; now rewrite lookup_insert_ne.
Qed.

(** C5 (amended): a Product holds a shallow copy of its submission: built
    over a well-formed document, it shows the data of the chosen submission,
    building it leaves the event's raw data unchanged, and so does every
    later assignment to a top-level key of the Product's own dictionary. *)
Theorem product_copy_isolates_top_level (st st' : store) (ev : DetailEvent)
    (product_name : string) (version : Z) (l : loc) (p : Product)
    (Hwf : event_wf st ev)
    (Hinit : Product_init st product_name version l = Some (st', p)) :
  product_view st' p = (product_name, version, deep_dict st l) /\
  raw_data st' ev = raw_data st ev /\
  forall st'' m, top_level m = true ->
    raw_data (mutate st'' p m) ev = raw_data st'' ev.
Proof.
  apply Product_init_extends in Hinit as (Hext & Hfresh & Hview).
  split; [exact Hview|]. split; [now apply raw_data_extends|].
  intros st'' m Htop. apply mutate_top_level_frame; [|exact Htop].
  intros productName locs Hlocs Hin. apply Hfresh.
  apply elem_of_dom. eapply Hwf; eassumption.
Qed.

Lemma product_copy_isolates_top_level_witness :
  let st' := mkStore (<[4%positive := origin_ci_150]> (dicts example_store))
                     (propertymaps example_store) (contentmaps example_store) in
  let p := mkProduct "origin" 1 4%positive in
  raw_data (mutate st' p (Set_source "zz")) example_event
  = raw_data st' example_event.
Proof.
  cbv zeta.
  destruct (product_copy_isolates_top_level example_store _ example_event
              "origin" 1 3%positive _ example_event_wf eq_refl) as (_ & _ & H).
  apply H. reflexivity.
Defined.

(** C5 as stated fails: the nested ["properties"] mapping is shared, so an
    item assignment made through the Product shows in the event's data. *)
Lemma nested_mutation_reaches_event :
  exists st' p,
    Product_init example_store "origin" 1 3%positive = Some (st', p) /\
    raw_data (mutate st' p (Properties_setitem "magnitude" "9.9")) example_event
    <> raw_data st' example_event.
Proof.
  eexists _, _. split; [reflexivity|].
  intros H.
  apply (f_equal (fun m => m !! "origin")) in H.
  vm_compute in H. discriminate.
Qed.

(** ** Where the code departs from its documentation *)

(** C1 (code): on the example of the specification the weights are
    maximal at "ci", yet source 'preferred' selects "us": [argmax] is taken
    over the table sorted by source and time, where "ci" stands first, and
    position 0 is then looked up in the unsorted submission list, where "us"
    stands first.  The product returned is us@200, version 2. *)
Theorem preferred_source_example :
  Df.source <$> version_table [origin_us_100; origin_us_200; origin_ci_150]
    = ["ci"; "us"; "us"] /\
  argmax (Df.weight <$>
            version_table [origin_us_100; origin_us_200; origin_ci_150])
    = Returns 0%nat /\
  let c := get_product first_seen example_store example_event "origin"
             "preferred" VersionOption.PREFERRED in
  outcome_map (fmap (product_view (fst c))) (snd c)
  = Returns [("origin", 2,
              Some (origin_us_200, Some [("magnitude", "4.3")], Some []))].
Proof. split; [|split]; vm_compute; reflexivity. Qed.

Lemma version_table_nonempty raw : raw <> [] -> version_table raw <> [].
Proof.
  intros Hne Htable. pose proof (version_table_index raw) as Hperm.
  rewrite Htable in Hperm. simpl in Hperm.
  apply Permutation_nil_l in Hperm. destruct raw; [congruence|discriminate].
Qed.

Lemma sort_nonempty order df : df <> [] -> sort order df <> [].
Proof.
  intros Hne Hs. apply Hne. apply Permutation_nil_r.
  now rewrite <- Hs, sort_perm.
Qed.

(** C2 (code): for a product type with at least one submission, source
    'all' with version ALL does not return: the loop asks the numpy table for
    [iterrows], which it does not have, and the call raises AttributeError;
    the store is unchanged. *)
Theorem all_versions_raise (set_iter : list string -> list string)
    (st : store) (ev : DetailEvent) (productName : string)
    (locs : list loc) (raw : list RawSubmission)
    (Hset : forall l, l <> [] -> set_iter l <> [])
    (Hlocs : products ev !! productName = Some locs)
    (Hraw : read_submissions st locs = Some raw)
    (Hne : raw <> []) :
  get_product set_iter st ev productName "all" VersionOption.ALL
  = (st, Raises (AttributeError (NoAttribute "iterrows"))).
Proof.
  unfold get_product. rewrite Hlocs, Hraw.
  assert (select_rows set_iter raw "all" VersionOption.ALL
          = Raises (AttributeError (NoAttribute "iterrows"))) as ->; [|reflexivity].
  unfold select_rows, select_source. cbn [String.eqb Ascii.eqb Bool.eqb outcome_bind].
  pose proof (sort_nonempty [Source; Time] _ (version_table_nonempty raw Hne)) as Hs.
  destruct (sort [Source; Time] (version_table raw)) as [|row df] eqn:Hdf;
    [congruence|].
  cbn [String.eqb Ascii.eqb Bool.eqb outcome_bind].
  assert (Df.source <$> row :: df <> []) as Hsrc
    by (rewrite fmap_cons; discriminate).
  specialize (Hset _ Hsrc).
  destruct (set_iter (Df.source <$> row :: df)) as [|s rest]; [congruence|].
  reflexivity.
Qed.

Lemma all_versions_raise_witness :
  get_product first_seen example_store example_event "origin" "all"
    VersionOption.ALL
  = (example_store, Raises (AttributeError (NoAttribute "iterrows"))).
Proof.
  apply (all_versions_raise first_seen example_store example_event "origin"
           [1%positive; 2%positive; 3%positive]
           [origin_us_100; origin_us_200; origin_ci_150]).
  - intros [|x l] H; [congruence|]. unfold first_seen. simpl.
    destruct (decide_rel _ _ _); [|discriminate].
    intros Hnil. apply (f_equal (fun k => x ∈ k)) in Hnil.
    assert (x ∈ remove_dups l) as Hin by now apply elem_of_remove_dups.
    rewrite Hnil in Hin. inversion Hin.
  - reflexivity.
  - reflexivity.
  - discriminate.
Defined.

(** C6 (code): for a product type whose submission list is empty, every
    source other than 'preferred' raises the AttributeError that the
    specification calls NotFound, but source 'preferred' raises ValueError
    from [numpy.argmax], which runs on the empty table before the emptiness
    check is reached. *)
Theorem empty_type_errors (set_iter : list string -> list string)
    (st : store) (ev : DetailEvent) (productName : string) (version : Z)
    (Hempty : products ev !! productName = Some []) :
  get_product set_iter st ev productName "preferred" version
    = (st, Raises (ValueError "attempt to get argmax of an empty sequence")) /\
  ~ is_NotFound (snd (get_product set_iter st ev productName "preferred" version)) /\
  forall source_arg, source_arg <> "preferred" ->
    get_product set_iter st ev productName source_arg version
      = (st, Raises (AttributeError (NoProductsForSource source_arg))) /\
    is_NotFound (snd (get_product set_iter st ev productName source_arg version)).
Proof.
  assert (get_product set_iter st ev productName "preferred" version
          = (st, Raises (ValueError "attempt to get argmax of an empty sequence")))
    as Hpref.
  { unfold get_product. rewrite Hempty. reflexivity. }
  split; [exact Hpref|]. split; [rewrite Hpref; simpl; tauto|].
  intros source_arg Hsrc.
  assert (get_product set_iter st ev productName source_arg version
          = (st, Raises (AttributeError (NoProductsForSource source_arg)))) as Hother.
  { unfold get_product. rewrite Hempty. cbn [read_submissions mapM mret option_ret].
    unfold select_rows, select_source.
    apply String.eqb_neq in Hsrc. rewrite Hsrc.
    destruct (String.eqb source_arg "all"); reflexivity. }
  split; [exact Hother|]. rewrite Hother. exact I.
Qed.

Lemma empty_type_errors_witness :
  get_product first_seen example_store example_event "shakemap" "preferred"
    VersionOption.PREFERRED
  = (example_store,
     Raises (ValueError "attempt to get argmax of an empty sequence")).
Proof.
  apply (empty_type_errors first_seen example_store example_event "shakemap"
           VersionOption.PREFERRED eq_refl).
Defined.

(** * Further properties *)

(** ** Groups of the version table *)

Lemma StronglySorted_filter {A} (R : relation A) (P : A -> Prop)
    `{!forall x, Decision (P x)} (l : list A) :
  StronglySorted R l -> StronglySorted R (filter P l).
Proof.
  induction 1 as [|a l Hs IH Hall]; [constructor|].
  rewrite filter_cons. destruct (decide (P a)); [|exact IH].
  constructor; [exact IH|].
  apply Forall_forall. intros x Hx. apply list_elem_of_filter in Hx as [_ Hx].
  rewrite Forall_forall in Hall. now apply Hall.
Qed.

Lemma StronglySorted_lookup {A} (R : relation A) (l : list A) i j x y :
  StronglySorted R l -> (i < j)%nat -> l !! i = Some x -> l !! j = Some y ->
  R x y.
Proof.
  intros Hs. revert i j. induction Hs as [|a l Hs IH Hall]; intros i j Hij Hi Hj.
  - rewrite lookup_nil in Hi. discriminate.
  - destruct j as [|j]; [lia|]. rewrite lookup_cons_ne_0 in Hj by lia.
    simpl in Hj. destruct i as [|i].
    + simpl in Hi. injection Hi as <-.
      rewrite Forall_forall in Hall. apply Hall.
      eapply list_elem_of_lookup_2; eassumption.
    + simpl in Hi. eapply (IH i j); [lia|assumption..].
Qed.

Lemma version_table_versions raw s :
  Df.version <$> source_group s raw
  = seqZ 1 (Z.of_nat (length (source_group s raw))).
Proof.
  unfold source_group, version_table.
  pose proof (sort_sorted [Source; Time] (build_df raw)) as Hsorted.
  rewrite newnames_source_time in Hsorted.
  rewrite assign_versions_length.
  rewrite (assign_versions_grouped _ [] 1 EmptyString s).
  - now destruct (decide (s = EmptyString)).
  - eapply StronglySorted_weaken; [|exact Hsorted].
    intros a b. apply row_le_source.
  - constructor.
  - apply Forall_forall. intros r _. apply empty_string_le.
  - now right.
Qed.

(** Row [i] of a source's group carries version [i + 1]. *)
Lemma group_lookup_version raw s i r :
  source_group s raw !! i = Some r -> Df.version r = 1 + Z.of_nat i.
Proof.
  intros Hr.
  assert ((Df.version <$> source_group s raw) !! i = Some (Df.version r)) as Hv
    by (rewrite list_lookup_fmap, Hr; reflexivity).
  rewrite version_table_versions in Hv.
  apply lookup_seqZ in Hv as [Hv _]. exact Hv.
Qed.

Lemma assign_versions_rel s ps pv df :
  Forall2 (fun r' r => r' = Df.set_version (Df.version r') r)
          (filter_source s (assign_versions ps pv df)) (filter_source s df).
Proof.
  unfold filter_source.
  revert ps pv. induction df as [|row rest IH]; intros ps pv; simpl; [constructor|].
  destruct (decide (Df.source row ∈ ps)); rewrite !filter_cons;
    match goal with
    | |- context [Df.source (Df.set_version ?v row)] =>
        change (Df.source (Df.set_version v row)) with (Df.source row)
    end;
    destruct (decide (Df.source row = s)); try apply IH;
    constructor; try apply IH; now destruct row.
Qed.

(** Two rows of one source in table order stay in order under the
    comparison of [sort(order="time")] once their versions are set in
    increasing order. *)
Lemma row_le_regroup a b va vb :
  row_le [Source; Time; Weight; Index; Version] a b ->
  Df.source a = Df.source b -> va <= vb ->
  row_le [Time; Weight; Source; Index; Version]
         (Df.set_version va a) (Df.set_version vb b).
Proof.
  unfold row_le. destruct a as [wa sa ta ia xa], b as [wb sb tb ib xb].
  cbn [row_cmp field_cmp Df.set_version Df.weight Df.source Df.time Df.index
       Df.version].
  intros H -> Hv. rewrite string_compare_refl in *.
  destruct (Z.compare ta tb); try congruence.
  destruct (Z.compare wa wb); try congruence.
  destruct (Nat.compare ia ib); try congruence.
  intros Hgt. destruct (Z.compare_spec va vb); try discriminate. lia.
Qed.

Lemma newnames_time : newnames [Time] = [Time; Weight; Source; Index; Version].
Proof. reflexivity. Qed.

Lemma regroup_sorted s (G G0 : list Row) : forall m,
  Forall2 (fun r' r => r' = Df.set_version (Df.version r') r) G G0 ->
  Df.version <$> G = seqZ m (Z.of_nat (length G)) ->
  StronglySorted (row_le [Source; Time; Weight; Index; Version]) G0 ->
  Forall (fun r => Df.source r = s) G0 ->
  StronglySorted (row_le [Time; Weight; Source; Index; Version]) G /\
  Forall (fun r => m <= Df.version r) G.
Proof.
  intros m Hrel. revert m.
  induction Hrel as [|a' a G G0 Ha Hrel IH]; intros m Hv Hs Hsrc.
  { split; constructor. }
  apply StronglySorted_inv in Hs as [Hs Hhead].
  apply Forall_cons in Hsrc as [Hsa Hsrc].
  rewrite fmap_cons in Hv. cbn [length] in Hv.
  rewrite seqZ_cons in Hv by lia. injection Hv as Hva Hv.
  replace (Z.pred (Z.of_nat (S (length G)))) with (Z.of_nat (length G)) in Hv by lia.
  destruct (IH (Z.succ m) Hv Hs Hsrc) as [IHs IHv].
  split.
  - constructor; [exact IHs|].
    apply Forall_forall. intros b' Hb'.
    apply list_elem_of_lookup in Hb' as [i Hi].
    destruct (Forall2_lookup_l _ _ _ _ _ Hrel Hi) as (b & Hb & Hbb).
    rewrite Ha, Hbb. apply row_le_regroup.
    + rewrite Forall_forall in Hhead. apply Hhead.
      eapply list_elem_of_lookup_2; eassumption.
    + rewrite Forall_forall in Hsrc. rewrite Hsa. symmetry. apply Hsrc.
      eapply list_elem_of_lookup_2; eassumption.
    + rewrite Forall_forall in IHv.
      specialize (IHv b' ltac:(eapply list_elem_of_lookup_2; eassumption)). lia.
  - constructor; [lia|]. eapply Forall_impl; [exact IHv|]. simpl. intros; lia.
Qed.

(** A source's group, as it stands in the version table, is in the order
    of [sort(order="time")]. *)
Lemma group_sorted raw s :
  StronglySorted (row_le (newnames [Time])) (source_group s raw).
Proof.
  rewrite newnames_time. unfold source_group, version_table.
  pose proof (sort_sorted [Source; Time] (build_df raw)) as Hsorted.
  rewrite newnames_source_time in Hsorted.
  eapply (regroup_sorted s _ _ 1).
  - apply assign_versions_rel.
  - apply (version_table_versions raw s).
  - apply StronglySorted_filter. exact Hsorted.
  - apply Forall_forall. intros r Hr. unfold filter_source in Hr.
    now apply list_elem_of_filter in Hr as [Hr _].
Qed.

(** Sorting by time the rows of source [s] of any arrangement of the
    version table gives the group of [s]. *)
Lemma sort_time_group raw s df :
  df ≡ₚ version_table raw ->
  sort [Time] (filter_source s df) = source_group s raw.
Proof.
  intros Hperm. symmetry. apply sort_unique.
  - unfold source_group, filter_source. now rewrite Hperm.
  - apply StronglySorted_Sorted, group_sorted.
Qed.

Lemma source_group_elem raw s r :
  r ∈ source_group s raw <-> r ∈ version_table raw /\ Df.source r = s.
Proof.
  unfold source_group, filter_source. rewrite list_elem_of_filter. tauto.
Qed.

Lemma version_table_length raw : length (version_table raw) = length raw.
Proof.
  rewrite <- (length_fmap Df.index), (version_table_index raw).
  apply length_seq.
Qed.

Lemma source_group_length_le raw s :
  (length (source_group s raw) <= length raw)%nat.
Proof.
  rewrite <- version_table_length. unfold source_group, filter_source.
  apply length_filter.
Qed.

(** Every row of the version table has a version between 1 and the number
    of rows of its source. *)
Lemma version_table_version_bounds raw r :
  r ∈ version_table raw ->
  1 <= Df.version r <= Z.of_nat (length (source_group (Df.source r) raw)).
Proof.
  intros Hr.
  assert (r ∈ source_group (Df.source r) raw) as Hg
    by now apply source_group_elem.
  apply list_elem_of_lookup in Hg as [i Hi].
  pose proof (lookup_lt_Some _ _ _ Hi) as Hlt.
  rewrite (group_lookup_version _ _ _ _ Hi). lia.
Qed.

Lemma table_row_of_submission raw i d :
  raw !! i = Some d ->
  exists r, r ∈ version_table raw /\ Df.index r = i /\
            r = Df.set_version (Df.version r) (row_of i d).
Proof.
  intros Hd.
  assert (i ∈ Df.index <$> version_table raw) as Hi.
  { rewrite (version_table_index raw). apply list_elem_of_In, in_seq.
    apply lookup_lt_Some in Hd. lia. }
  apply list_elem_of_fmap in Hi as (r & -> & Hr).
  exists r. split; [exact Hr|]. split; [reflexivity|].
  destruct (version_table_elem raw r Hr) as (p & Hp & Hrp).
  rewrite Hd in Hp. injection Hp as <-. exact Hrp.
Qed.

Lemma version_table_NoDup raw : NoDup (version_table raw).
Proof.
  apply (NoDup_fmap_1 Df.index). rewrite (version_table_index raw).
  apply NoDup_seq.
Qed.

(** X1: every row of the version table carries a version between 1 and the
    number of submissions of its source, which is at most the number of
    submissions of the product type ([get_num_versions]). *)
Theorem version_between_one_and_count (raw : list RawSubmission) (r : Row)
    (Hr : r ∈ version_table raw) :
  1 <= Df.version r <= Z.of_nat (length (submissions_of (Df.source r) raw)) /\
  (length (submissions_of (Df.source r) raw) <= length raw)%nat.
Proof.
  rewrite <- source_group_length. split.
  - now apply version_table_version_bounds.
  - apply source_group_length_le.
Qed.

Lemma version_between_one_and_count_witness :
  1 <= 2 <= Z.of_nat (length (submissions_of "us"
                                [origin_us_100; origin_us_200; origin_ci_150])).
Proof.
  apply (version_between_one_and_count
           [origin_us_100; origin_us_200; origin_ci_150]
           (Df.mk 2 "us" 200 1 2)).
  vm_compute. apply list_elem_of_In. right. right. left. reflexivity.
Defined.

Lemma same_source_version_eq raw a b :
  a ∈ version_table raw -> b ∈ version_table raw ->
  Df.source a = Df.source b -> Df.version a = Df.version b -> a = b.
Proof.
  intros Ha Hb Hs Hv.
  assert (a ∈ source_group (Df.source a) raw) as Hga
    by now apply source_group_elem.
  assert (b ∈ source_group (Df.source a) raw) as Hgb
    by now apply source_group_elem.
  apply list_elem_of_lookup in Hga as [i Hi].
  apply list_elem_of_lookup in Hgb as [j Hj].
  pose proof (group_lookup_version _ _ _ _ Hi) as Hvi.
  pose proof (group_lookup_version _ _ _ _ Hj) as Hvj.
  assert (i = j) as -> by lia. congruence.
Qed.

(** X2: no two rows of the version table carry the same pair of source and
    version: a (source, version) pair names one submission. *)
Theorem source_version_pairs_distinct (raw : list RawSubmission) :
  NoDup ((fun r => (Df.source r, Df.version r)) <$> version_table raw).
Proof.
  apply NoDup_fmap_2_strong; [|apply version_table_NoDup].
  intros a b Ha Hb Heq. injection Heq as Hs Hv.
  eapply same_source_version_eq; eassumption.
Qed.

(** X3: within one source the versions follow the update times: a row with
    a smaller version has an update time that is not later, and a row with a
    strictly earlier update time has a strictly smaller version. *)
Theorem version_order_follows_time (raw : list RawSubmission) (a b : Row)
    (Ha : a ∈ version_table raw) (Hb : b ∈ version_table raw)
    (Hs : Df.source a = Df.source b) :
  (Df.version a < Df.version b -> Df.time a <= Df.time b) /\
  (Df.time a < Df.time b -> Df.version a < Df.version b).
Proof.
  assert (forall x y, x ∈ version_table raw -> y ∈ version_table raw ->
            Df.source x = Df.source y ->
            Df.version x < Df.version y -> Df.time x <= Df.time y) as Hmono.
  { intros x y Hx Hy Hxy Hv.
    assert (x ∈ source_group (Df.source x) raw) as Hgx
      by now apply source_group_elem.
    assert (y ∈ source_group (Df.source x) raw) as Hgy
      by now apply source_group_elem.
    apply list_elem_of_lookup in Hgx as [i Hi].
    apply list_elem_of_lookup in Hgy as [j Hj].
    pose proof (group_lookup_version _ _ _ _ Hi) as Hvi.
    pose proof (group_lookup_version _ _ _ _ Hj) as Hvj.
    pose proof (StronglySorted_lookup _ _ i j x y
                  (group_sorted raw (Df.source x)) ltac:(lia) Hi Hj) as Hle.
    rewrite newnames_time in Hle. unfold row_le in Hle. simpl in Hle.
    apply Z.compare_le_iff. intros Hgt. rewrite Hgt in Hle. congruence. }
  split; [now apply Hmono|].
  intros Ht.
  destruct (Z.lt_trichotomy (Df.version a) (Df.version b)) as [Hlt|[Heq|Hgt]];
    [assumption| |].
  - assert (a = b) as -> by (eapply same_source_version_eq; eassumption). lia.
  - specialize (Hmono b a Hb Ha (eq_sym Hs) Hgt). lia.
Qed.

Lemma version_order_follows_time_witness :
  Df.time (Df.mk 1 "us" 100 0 1) <= Df.time (Df.mk 2 "us" 200 1 2).
Proof.
  destruct (version_order_follows_time
              [origin_us_100; origin_us_200; origin_ci_150]
              (Df.mk 1 "us" 100 0 1) (Df.mk 2 "us" 200 1 2)) as [H _].
  - vm_compute. apply list_elem_of_In. right. left. reflexivity.
  - vm_compute. apply list_elem_of_In. right. right. left. reflexivity.
  - reflexivity.
  - apply H. reflexivity.
Defined.

(** ** Selection by an explicit source *)

Lemma rstrip_nul_cons c rest :
  rstrip_nul (String c rest)
  = match rstrip_nul rest with
    | EmptyString =>
        if Ascii.eqb c Ascii.zero then EmptyString else String c EmptyString
    | rest' => String c rest'
    end.
Proof. reflexivity. Qed.

Lemma rstrip_nul_idemp s : rstrip_nul (rstrip_nul s) = rstrip_nul s.
Proof.
  induction s as [|c rest IH]; [reflexivity|].
  rewrite rstrip_nul_cons.
  destruct (rstrip_nul rest) as [|c' rest'] eqn:Hrest.
  - destruct (Ascii.eqb c Ascii.zero) eqn:Hc; [reflexivity|].
    rewrite rstrip_nul_cons. cbn [rstrip_nul]. now rewrite Hc.
  - rewrite rstrip_nul_cons, IH. reflexivity.
Qed.

(** A source in stored form has no trailing NUL byte. *)
Lemma S64_fixed_rstrip s : S64 s = s -> rstrip_nul s = s.
Proof.
  intros H. rewrite <- H at 1. unfold S64. rewrite rstrip_nul_idemp. exact H.
Qed.

Lemma select_source_explicit raw s :
  s <> "preferred" -> s <> "all" -> rstrip_nul s = s ->
  select_source raw (version_table raw) s
  = match source_group s raw with
    | [] => Raises (AttributeError (NoProductsForSource s))
    | _ => Returns (source_group s raw)
    end.
Proof.
  intros Hp Ha Hs. unfold select_source.
  apply String.eqb_neq in Hp, Ha. rewrite Hp, Ha, Hs.
  rewrite (sort_time_group raw s (version_table raw)) by reflexivity.
  reflexivity.
Qed.

Lemma select_rows_explicit set_iter raw s version :
  s <> "preferred" -> s <> "all" -> rstrip_nul s = s ->
  select_rows set_iter raw s version
  = match source_group s raw with
    | [] => Raises (AttributeError (NoProductsForSource s))
    | _ => resolve_version version (source_group s raw)
    end.
Proof.
  intros Hp Ha Hs. unfold select_rows.
  rewrite (select_source_explicit raw s Hp Ha Hs).
  apply String.eqb_neq in Ha.
  destruct (source_group s raw); simpl; [reflexivity|]. now rewrite Ha.
Qed.

Lemma source_group_nonempty raw s :
  submissions_of s raw <> [] <-> source_group s raw <> [].
Proof.
  pose proof (source_group_length raw s) as Hlen.
  destruct (source_group s raw), (submissions_of s raw); simpl in Hlen;
    try discriminate; split; congruence.
Qed.

(** The submission behind a row of the table, as the store holds it. *)
Lemma row_submission st locs raw row :
  read_submissions st locs = Some raw -> row ∈ version_table raw ->
  exists d l,
    raw !! Df.index row = Some d /\ locs !! Df.index row = Some l /\
    dicts st !! l = Some d /\
    row = Df.set_version (Df.version row) (row_of (Df.index row) d).
Proof.
  intros Hraw Hrow.
  destruct (version_table_elem raw row Hrow) as (d & Hd & Hr).
  destruct (read_submissions_lookup _ _ _ _ _ Hraw Hd) as (l & Hl & Hdl).
  eauto 10.
Qed.

(** When the selection is a single row, the call returns a single product
    showing that row's version and submission. *)
Lemma get_product_single set_iter st ev productName source_arg version
    locs raw row :
  products ev !! productName = Some locs ->
  read_submissions st locs = Some raw ->
  select_rows set_iter raw source_arg version = Returns [row] ->
  exists st' p d l,
    get_product set_iter st ev productName source_arg version
      = (st', Returns [p]) /\
    raw !! Df.index row = Some d /\ locs !! Df.index row = Some l /\
    dicts st !! l = Some d /\
    row = Df.set_version (Df.version row) (row_of (Df.index row) d) /\
    product_view st' p = (productName, Df.version row, deep_dict st l).
Proof.
  intros Hlocs Hraw Hsel.
  destruct (get_product_returns set_iter st ev productName source_arg version
              locs raw [row] Hlocs Hraw Hsel) as (st' & ps & Hget & _ & Hviews).
  assert (row ∈ version_table raw) as Hrow
    by (eapply select_rows_subset; [exact Hsel|now left]).
  destruct (row_submission st locs raw row Hraw Hrow) as (d & l & Hd & Hl & Hdl & Hr).
  destruct ps as [|p [|q ps]]; try discriminate.
  exists st', p, d, l. repeat (split; [assumption|]).
  apply (f_equal head) in Hviews. cbn [head fmap list_fmap] in Hviews.
  apply (inj Some) in Hviews. rewrite Hviews, Hl. reflexivity.
Qed.

Lemma group_row_time_le raw s a b i j :
  source_group s raw !! i = Some a -> source_group s raw !! j = Some b ->
  (i <= j)%nat -> Df.time a <= Df.time b.
Proof.
  intros Hi Hj Hij.
  destruct (decide (i = j)) as [->|Hne]; [rewrite Hi in Hj; injection Hj as <-; lia|].
  pose proof (StronglySorted_lookup _ _ i j a b (group_sorted raw s)
                ltac:(lia) Hi Hj) as Hle.
  rewrite newnames_time in Hle. unfold row_le in Hle. simpl in Hle.
  apply Z.compare_le_iff. intros Hgt. rewrite Hgt in Hle. congruence.
Qed.

(** The row of a submission of source [s] stands in the group of [s]. *)
Lemma submission_in_group raw s d :
  d ∈ submissions_of s raw ->
  exists r j, source_group s raw !! j = Some r /\
              Df.time r = int64 (updateTime d) /\
              Df.weight r = int32 (preferredWeight d).
Proof.
  unfold submissions_of. intros Hd.
  apply list_elem_of_filter in Hd as [Hs Hd].
  apply list_elem_of_lookup in Hd as [i Hi].
  destruct (table_row_of_submission raw i d Hi) as (r & Hr & _ & Hrd).
  assert (r ∈ source_group s raw) as Hg.
  { apply source_group_elem. split; [exact Hr|]. rewrite Hrd. exact Hs. }
  apply list_elem_of_lookup in Hg as [j Hj].
  exists r, j. split; [exact Hj|]. rewrite Hrd. split; reflexivity.
Qed.

(** Byte-string comparison at line 264: the row that FIRST picks. *)
Lemma explicit_source_first_returns (set_iter : list string -> list string)
    (st : store) (ev : DetailEvent) (productName s : string)
    (locs : list loc) (raw : list RawSubmission)
    (Hlocs : products ev !! productName = Some locs)
    (Hraw : read_submissions st locs = Some raw)
    (Hp : s <> "preferred") (Ha : s <> "all") (Hfit : S64 s = s)
    (Hs : submissions_of s raw <> []) :
  exists st' p d l,
    get_product set_iter st ev productName s VersionOption.FIRST
      = (st', Returns [p]) /\
    d ∈ submissions_of s raw /\ dicts st !! l = Some d /\
    product_view st' p = (productName, 1, deep_dict st l) /\
    forall d', d' ∈ submissions_of s raw ->
      int64 (updateTime d) <= int64 (updateTime d').
Proof.
  pose proof (S64_fixed_rstrip s Hfit) as Hstrip.
  pose proof (proj1 (source_group_nonempty raw s) Hs) as Hne.
  destruct (source_group s raw) as [|row G] eqn:HG; [congruence|].
  assert (select_rows set_iter raw s VersionOption.FIRST = Returns [row]) as Hsel.
  { rewrite select_rows_explicit, HG by assumption. reflexivity. }
  destruct (get_product_single set_iter st ev productName s VersionOption.FIRST
              locs raw row Hlocs Hraw Hsel)
    as (st' & p & d & l & Hget & Hd & Hl & Hdl & Hrow & Hview).
  assert (source_group s raw !! 0%nat = Some row) as H0 by now rewrite HG.
  pose proof (group_lookup_version raw s 0 row H0) as Hv. simpl in Hv.
  assert (Df.source row = s) as Hsrc.
  { apply (source_group_elem raw s row). rewrite HG. now left. }
  exists st', p, d, l. split; [exact Hget|]. split; [|split; [exact Hdl|split]].
  - unfold submissions_of. apply list_elem_of_filter. split.
    + rewrite Hrow in Hsrc. exact Hsrc.
    + eapply list_elem_of_lookup_2; eassumption.
  - rewrite Hv in Hview. exact Hview.
  - intros d' Hd'.
    destruct (submission_in_group raw s d' Hd') as (r & j & Hj & Ht & _).
    rewrite <- Ht.
    replace (int64 (updateTime d)) with (Df.time row)
      by (rewrite Hrow; reflexivity).
    eapply (group_row_time_le raw s row r 0 j); [exact H0|exact Hj|lia].
Qed.

(** Byte-string comparison at line 264: the row that LAST picks. *)
Lemma explicit_source_last_returns (set_iter : list string -> list string)
    (st : store) (ev : DetailEvent) (productName s : string)
    (locs : list loc) (raw : list RawSubmission)
    (Hlocs : products ev !! productName = Some locs)
    (Hraw : read_submissions st locs = Some raw)
    (Hp : s <> "preferred") (Ha : s <> "all") (Hfit : S64 s = s)
    (Hs : submissions_of s raw <> []) :
  exists st' p d l,
    get_product set_iter st ev productName s VersionOption.LAST
      = (st', Returns [p]) /\
    d ∈ submissions_of s raw /\ dicts st !! l = Some d /\
    product_view st' p
      = (productName, Z.of_nat (length (submissions_of s raw)),
         deep_dict st l) /\
    forall d', d' ∈ submissions_of s raw ->
      int64 (updateTime d') <= int64 (updateTime d).
Proof.
  pose proof (S64_fixed_rstrip s Hfit) as Hstrip.
  pose proof (proj1 (source_group_nonempty raw s) Hs) as Hne.
  destruct (last (source_group s raw)) as [row|] eqn:Hlast;
    [|apply last_None in Hlast; congruence].
  assert (select_rows set_iter raw s VersionOption.LAST = Returns [row]) as Hsel.
  { rewrite select_rows_explicit by assumption.
    destruct (source_group s raw) eqn:HG; [congruence|].
    unfold resolve_version. simpl. now rewrite Hlast. }
  destruct (get_product_single set_iter st ev productName s VersionOption.LAST
              locs raw row Hlocs Hraw Hsel)
    as (st' & p & d & l & Hget & Hd & Hl & Hdl & Hrow & Hview).
  rewrite last_lookup in Hlast.
  pose proof (group_lookup_version raw s _ row Hlast) as Hv.
  assert (length (source_group s raw) <> 0%nat) as Hlen
    by (destruct (source_group s raw); [congruence|discriminate]).
  assert (Df.version row = Z.of_nat (length (submissions_of s raw))) as Hcount
    by (rewrite <- source_group_length; lia).
  assert (Df.source row = s) as Hsrc.
  { apply (source_group_elem raw s row).
    eapply list_elem_of_lookup_2; eassumption. }
  exists st', p, d, l. split; [exact Hget|]. split; [|split; [exact Hdl|split]].
  - unfold submissions_of. apply list_elem_of_filter. split.
    + rewrite Hrow in Hsrc. exact Hsrc.
    + eapply list_elem_of_lookup_2; eassumption.
  - rewrite Hcount in Hview. exact Hview.
  - intros d' Hd'.
    destruct (submission_in_group raw s d' Hd') as (r & j & Hj & Ht & _).
    rewrite <- Ht.
    replace (int64 (updateTime d)) with (Df.time row)
      by (rewrite Hrow; reflexivity).
    pose proof (lookup_lt_Some _ _ _ Hj) as Hjlt.
    eapply (group_row_time_le raw s r row j _); [exact Hj|exact Hlast|lia].
Qed.

(** Byte-string comparison at line 264: the row that PREFERRED picks. *)
Lemma explicit_source_preferred_returns (set_iter : list string -> list string)
    (st : store) (ev : DetailEvent) (productName s : string)
    (locs : list loc) (raw : list RawSubmission)
    (Hlocs : products ev !! productName = Some locs)
    (Hraw : read_submissions st locs = Some raw)
    (Hp : s <> "preferred") (Ha : s <> "all") (Hfit : S64 s = s)
    (Hs : submissions_of s raw <> []) :
  exists st' p d l v,
    get_product set_iter st ev productName s VersionOption.PREFERRED
      = (st', Returns [p]) /\
    d ∈ submissions_of s raw /\ dicts st !! l = Some d /\
    product_view st' p = (productName, v, deep_dict st l) /\
    forall d', d' ∈ submissions_of s raw ->
      int32 (preferredWeight d') < int32 (preferredWeight d) \/
      (int32 (preferredWeight d') = int32 (preferredWeight d) /\
       int64 (updateTime d') <= int64 (updateTime d)).
Proof.
  pose proof (S64_fixed_rstrip s Hfit) as Hstrip.
  pose proof (proj1 (source_group_nonempty raw s) Hs) as Hne.
  destruct (sort_last [Weight; Time] (source_group s raw) Hne)
    as (row & Hlast & Hin & Hmax).
  assert (select_rows set_iter raw s VersionOption.PREFERRED = Returns [row])
    as Hsel.
  { rewrite select_rows_explicit by assumption.
    destruct (source_group s raw) eqn:HG; [congruence|].
    unfold resolve_version. simpl. now rewrite Hlast. }
  destruct (get_product_single set_iter st ev productName s
              VersionOption.PREFERRED locs raw row Hlocs Hraw Hsel)
    as (st' & p & d & l & Hget & Hd & Hl & Hdl & Hrow & Hview).
  assert (Df.source row = s) as Hsrc by now apply (source_group_elem raw s row).
  exists st', p, d, l, (Df.version row).
  split; [exact Hget|]. split; [|split; [exact Hdl|split; [exact Hview|]]].
  - unfold submissions_of. apply list_elem_of_filter. split.
    + rewrite Hrow in Hsrc. exact Hsrc.
    + eapply list_elem_of_lookup_2; eassumption.
  - intros d' Hd'.
    destruct (submission_in_group raw s d' Hd') as (r & j & Hj & Ht & Hw).
    rewrite <- Ht, <- Hw.
    replace (int64 (updateTime d)) with (Df.time row)
      by (rewrite Hrow; reflexivity).
    replace (int32 (preferredWeight d)) with (Df.weight row)
      by (rewrite Hrow; reflexivity).
    apply (row_le_weight_time [Source; Index; Version]).
    rewrite <- newnames_weight_time. apply Hmax.
    eapply list_elem_of_lookup_2; eassumption.
Qed.

Lemma resolve_version_not_NotFound version df s :
  resolve_version version df <> Raises (AttributeError (NoProductsForSource s)).
Proof.
  unfold resolve_version.
  repeat match goal with
         | |- context [if ?b then _ else _] => destruct b
         | |- context [match ?o with Some _ => _ | None => _ end] => destruct o
         end; discriminate.
Qed.

Lemma make_products_not_NotFound productName locs rows s : forall st,
  snd (make_products st productName locs rows)
  <> Raises (AttributeError (NoProductsForSource s)).
Proof.
  induction rows as [|row rows IH]; intros st; [discriminate|].
  cbn [make_products]. destruct (locs !! Df.index row); [|discriminate].
  destruct (Product_init st productName (Df.version row) l) as [[st1 p]|];
    [|discriminate].
  specialize (IH st1).
  destruct (make_products st1 productName locs rows) as [st2 o]. simpl in *.
  destruct o; simpl; congruence.
Qed.

(** Byte-string comparison at line 264: when the filter leaves no row. *)
Lemma explicit_source_not_found_iff (set_iter : list string -> list string)
    (st : store) (ev : DetailEvent) (productName s : string) (version : Z)
    (locs : list loc) (raw : list RawSubmission)
    (Hlocs : products ev !! productName = Some locs)
    (Hraw : read_submissions st locs = Some raw)
    (Hp : s <> "preferred") (Ha : s <> "all") (Hfit : S64 s = s) :
  get_product set_iter st ev productName s version
    = (st, Raises (AttributeError (NoProductsForSource s)))
  <-> submissions_of s raw = [].
Proof.
  pose proof (S64_fixed_rstrip s Hfit) as Hstrip.
  unfold get_product. rewrite Hlocs, Hraw.
  rewrite select_rows_explicit by assumption.
  split.
  - intros H.
    destruct (submissions_of s raw) as [|d0 ds] eqn:Hsub; [reflexivity|exfalso].
    assert (source_group s raw <> []) as Hne
      by (apply source_group_nonempty; congruence).
    destruct (source_group s raw) as [|r0 G] eqn:HG; [congruence|].
    pose proof (resolve_version_not_NotFound version (r0 :: G) s) as Hrv.
    destruct (resolve_version version (r0 :: G)) as [rows|e|] eqn:Hres.
    + pose proof (make_products_not_NotFound productName locs rows s st) as Hmk.
      destruct (make_products st productName locs rows) as [st2 [ps|e|]];
        simpl in Hmk; try discriminate. congruence.
    + injection H as H. congruence.
    + discriminate.
  - intros Hsub.
    assert (source_group s raw = []) as ->; [|reflexivity].
    destruct (source_group s raw) eqn:HG; [reflexivity|exfalso].
    assert (source_group s raw <> []) as Hne by congruence.
    apply source_group_nonempty in Hne. contradiction.
Qed.

Lemma explicit_source_present set_iter st st' ev productName s version
    locs raw ps :
  products ev !! productName = Some locs ->
  read_submissions st locs = Some raw ->
  s <> "preferred" -> s <> "all" -> S64 s = s ->
  get_product set_iter st ev productName s version = (st', Returns ps) ->
  submissions_of s raw <> [].
Proof.
  intros Hlocs Hraw Hp Ha Hfit Hget Hnil.
  apply (explicit_source_not_found_iff set_iter st ev productName s version
           locs raw Hlocs Hraw Hp Ha Hfit) in Hnil.
  rewrite Hnil in Hget. discriminate.
Qed.

(** X4: whenever [get_product] with an explicit source [s] (given in its
    stored form) and version policy FIRST returns, it returns exactly one
    product: it has version 1 and shows a submission stored under [s] whose
    stored update time is the earliest of those stored under [s]. *)
Theorem explicit_source_first (set_iter : list string -> list string)
    (st st' : store) (ev : DetailEvent) (productName s : string)
    (locs : list loc) (raw : list RawSubmission) (ps : list Product)
    (Hlocs : products ev !! productName = Some locs)
    (Hraw : read_submissions st locs = Some raw)
    (Hp : s <> "preferred") (Ha : s <> "all") (Hfit : S64 s = s)
    (Hget : get_product set_iter st ev productName s VersionOption.FIRST
            = (st', Returns ps)) :
  exists p d l,
    ps = [p] /\
    d ∈ submissions_of s raw /\ dicts st !! l = Some d /\
    product_view st' p = (productName, 1, deep_dict st l) /\
    forall d', d' ∈ submissions_of s raw ->
      int64 (updateTime d) <= int64 (updateTime d').
Proof.
  pose proof (explicit_source_present _ _ _ _ _ _ _ _ _ _
                Hlocs Hraw Hp Ha Hfit Hget) as Hs.
  destruct (explicit_source_first_returns set_iter st ev productName s locs raw
              Hlocs Hraw Hp Ha Hfit Hs)
    as (st2 & p & d & l & Hget2 & Hd & Hdl & Hview & Hmin).
  rewrite Hget2 in Hget. injection Hget as <- <-.
  exists p, d, l. auto.
Qed.

Lemma explicit_source_first_witness :
  exists st' p,
    get_product first_seen example_store example_event "origin" "us"
      VersionOption.FIRST = (st', Returns [p]) /\
    product_view st' p = ("origin", 1, deep_dict example_store 1%positive).
Proof.
  destruct (get_product first_seen example_store example_event "origin" "us"
              VersionOption.FIRST) as [st' o] eqn:Hget.
  destruct o as [ps| |]; try (vm_compute in Hget; discriminate).
  destruct (explicit_source_first first_seen example_store st' example_event
              "origin" "us" [1%positive; 2%positive; 3%positive]
              [origin_us_100; origin_us_200; origin_ci_150] ps)
    as (p & d & l & -> & _ & _ & Hview & _);
    [reflexivity|reflexivity|discriminate|discriminate|reflexivity|exact Hget|].
  exists st', p. split; [reflexivity|].
  vm_compute in Hget. injection Hget as <- <-. reflexivity.
Defined.

(** X5: whenever [get_product] with an explicit source [s] (given in its
    stored form) and version policy LAST returns, it returns exactly one
    product: its version is the number of submissions stored under [s], and
    it shows one of them whose stored update time is the latest. *)
Theorem explicit_source_last (set_iter : list string -> list string)
    (st st' : store) (ev : DetailEvent) (productName s : string)
    (locs : list loc) (raw : list RawSubmission) (ps : list Product)
    (Hlocs : products ev !! productName = Some locs)
    (Hraw : read_submissions st locs = Some raw)
    (Hp : s <> "preferred") (Ha : s <> "all") (Hfit : S64 s = s)
    (Hget : get_product set_iter st ev productName s VersionOption.LAST
            = (st', Returns ps)) :
  exists p d l,
    ps = [p] /\
    d ∈ submissions_of s raw /\ dicts st !! l = Some d /\
    product_view st' p
      = (productName, Z.of_nat (length (submissions_of s raw)),
         deep_dict st l) /\
    forall d', d' ∈ submissions_of s raw ->
      int64 (updateTime d') <= int64 (updateTime d).
Proof.
  pose proof (explicit_source_present _ _ _ _ _ _ _ _ _ _
                Hlocs Hraw Hp Ha Hfit Hget) as Hs.
  destruct (explicit_source_last_returns set_iter st ev productName s locs raw
              Hlocs Hraw Hp Ha Hfit Hs)
    as (st2 & p & d & l & Hget2 & Hd & Hdl & Hview & Hmax).
  rewrite Hget2 in Hget. injection Hget as <- <-.
  exists p, d, l. auto.
Qed.

Lemma explicit_source_last_witness :
  exists st' p,
    get_product first_seen example_store example_event "origin" "us"
      VersionOption.LAST = (st', Returns [p]) /\
    product_view st' p = ("origin", 2, deep_dict example_store 2%positive).
Proof.
  destruct (get_product first_seen example_store example_event "origin" "us"
              VersionOption.LAST) as [st' o] eqn:Hget.
  destruct o as [ps| |]; try (vm_compute in Hget; discriminate).
  destruct (explicit_source_last first_seen example_store st' example_event
              "origin" "us" [1%positive; 2%positive; 3%positive]
              [origin_us_100; origin_us_200; origin_ci_150] ps)
    as (p & d & l & -> & _ & _ & Hview & _);
    [reflexivity|reflexivity|discriminate|discriminate|reflexivity|exact Hget|].
  exists st', p. split; [reflexivity|].
  vm_compute in Hget. injection Hget as <- <-. reflexivity.
Defined.

(** X6: whenever [get_product] with an explicit source [s] (given in its
    stored form) and version policy PREFERRED returns, it returns exactly one
    product, showing a submission stored under [s] of maximum stored weight
    and, among those of that weight, of latest stored update time. *)
Theorem explicit_source_preferred (set_iter : list string -> list string)
    (st st' : store) (ev : DetailEvent) (productName s : string)
    (locs : list loc) (raw : list RawSubmission) (ps : list Product)
    (Hlocs : products ev !! productName = Some locs)
    (Hraw : read_submissions st locs = Some raw)
    (Hp : s <> "preferred") (Ha : s <> "all") (Hfit : S64 s = s)
    (Hget : get_product set_iter st ev productName s VersionOption.PREFERRED
            = (st', Returns ps)) :
  exists p d l v,
    ps = [p] /\
    d ∈ submissions_of s raw /\ dicts st !! l = Some d /\
    product_view st' p = (productName, v, deep_dict st l) /\
    forall d', d' ∈ submissions_of s raw ->
      int32 (preferredWeight d') < int32 (preferredWeight d) \/
      (int32 (preferredWeight d') = int32 (preferredWeight d) /\
       int64 (updateTime d') <= int64 (updateTime d)).
Proof.
  pose proof (explicit_source_present _ _ _ _ _ _ _ _ _ _
                Hlocs Hraw Hp Ha Hfit Hget) as Hs.
  destruct (explicit_source_preferred_returns set_iter st ev productName s
              locs raw Hlocs Hraw Hp Ha Hfit Hs)
    as (st2 & p & d & l & v & Hget2 & Hd & Hdl & Hview & Hmax).
  rewrite Hget2 in Hget. injection Hget as <- <-.
  exists p, d, l, v. auto.
Qed.

Lemma explicit_source_preferred_witness :
  exists st' p,
    get_product first_seen example_store example_event "origin" "us"
      VersionOption.PREFERRED = (st', Returns [p]) /\
    product_view st' p = ("origin", 2, deep_dict example_store 2%positive).
Proof.
  destruct (get_product first_seen example_store example_event "origin" "us"
              VersionOption.PREFERRED) as [st' o] eqn:Hget.
  destruct o as [ps| |]; try (vm_compute in Hget; discriminate).
  destruct (explicit_source_preferred first_seen example_store st'
              example_event "origin" "us" [1%positive; 2%positive; 3%positive]
              [origin_us_100; origin_us_200; origin_ci_150] ps)
    as (p & d & l & v & -> & _ & _ & Hview & _);
    [reflexivity|reflexivity|discriminate|discriminate|reflexivity|exact Hget|].
  exists st', p. split; [reflexivity|].
  vm_compute in Hget. injection Hget as <- <-. reflexivity.
Defined.

(** X7: for storable submissions and an explicit source [s] given in its
    stored form, [get_product] raises the AttributeError 'No products found
    for source' naming [s], and leaves the store unchanged, whenever no
    submission is stored under [s], whatever the version policy; and a call
    that returns products found a submission stored under [s]. *)
Theorem explicit_source_not_found (set_iter : list string -> list string)
    (st : store) (ev : DetailEvent) (productName s : string) (version : Z)
    (locs : list loc) (raw : list RawSubmission)
    (Hlocs : products ev !! productName = Some locs)
    (Hraw : read_submissions st locs = Some raw)
    (Hstor : Forall storable raw)
    (Hp : s <> "preferred") (Ha : s <> "all") (Hfit : S64 s = s) :
  (submissions_of s raw = [] ->
   get_product set_iter st ev productName s version
   = (st, Raises (AttributeError (NoProductsForSource s)))) /\
  (forall st' ps,
     get_product set_iter st ev productName s version = (st', Returns ps) ->
     submissions_of s raw <> []).
Proof.
  split.
  - apply (explicit_source_not_found_iff set_iter st ev productName s version
             locs raw Hlocs Hraw Hp Ha Hfit).
  - intros st' ps Hget.
    exact (explicit_source_present _ _ _ _ _ _ _ _ _ _
             Hlocs Hraw Hp Ha Hfit Hget).
Qed.

Lemma explicit_source_not_found_witness :
  get_product first_seen example_store example_event "origin" "ak"
    VersionOption.LAST
  = (example_store, Raises (AttributeError (NoProductsForSource "ak"))).
Proof.
  destruct (explicit_source_not_found first_seen example_store example_event
              "origin" "ak" VersionOption.LAST
              [1%positive; 2%positive; 3%positive]
              [origin_us_100; origin_us_200; origin_ci_150]) as [H _];
    [reflexivity|reflexivity|repeat constructor; simpl; lia|
     discriminate|discriminate|reflexivity|].
  apply H. reflexivity.
Defined.

Lemma resolve_version_single version df rows :
  resolve_version version df = Returns rows -> exists row, rows = [row].
Proof.
  unfold resolve_version.
  repeat match goal with
         | |- context [if ?b then _ else _] => destruct b
         | |- context [match ?o with Some _ => _ | None => _ end] => destruct o
         end; try discriminate; intros H; injection H as <-; eauto.
Qed.

Lemma make_products_length productName locs rows : forall st st' ps,
  make_products st productName locs rows = (st', Returns ps) ->
  length ps = length rows.
Proof.
  induction rows as [|row rows IH]; intros st st' ps.
  - simpl. intros H. injection H as <- <-. reflexivity.
  - cbn [make_products]. destruct (locs !! Df.index row); [|discriminate].
    destruct (Product_init st productName (Df.version row) l) as [[st1 p]|];
      [|discriminate].
    destruct (make_products st1 productName locs rows) as [st2 o] eqn:Hmk.
    destruct o as [ps'| |]; simpl; try discriminate.
    intros H. injection H as <- <-. simpl. f_equal. eapply IH. exact Hmk.
Qed.

(** X8: whenever [get_product] returns with a source other than 'all', it
    returns exactly one product: the three working version policies each
    pick one row, and version ALL never returns. *)
Theorem single_source_returns_one (set_iter : list string -> list string)
    (st st' : store) (ev : DetailEvent) (productName source_arg : string)
    (version : Z) (ps : list Product)
    (Hsrc : source_arg <> "all")
    (Hget : get_product set_iter st ev productName source_arg version
            = (st', Returns ps)) :
  length ps = 1%nat /\
  (version = VersionOption.PREFERRED \/ version = VersionOption.LAST \/
   version = VersionOption.FIRST).
Proof.
  unfold get_product in Hget.
  destruct (products ev !! productName) as [locs|]; [|discriminate].
  destruct (read_submissions st locs) as [raw|]; [|discriminate].
  destruct (select_rows set_iter raw source_arg version) as [rows| |] eqn:Hsel;
    try discriminate.
  destruct (make_products st productName locs rows) as [st2 o] eqn:Hmk.
  destruct o as [ps'| |]; try discriminate. injection Hget as <- <-.
  apply make_products_length in Hmk. rewrite Hmk.
  unfold select_rows in Hsel.
  destruct (select_source raw (version_table raw) source_arg) as [df| |];
    simpl in Hsel; try discriminate.
  apply String.eqb_neq in Hsrc. rewrite Hsrc in Hsel.
  split.
  - apply resolve_version_single in Hsel as [row ->]. reflexivity.
  - unfold resolve_version in Hsel.
    destruct (Z.eqb_spec version VersionOption.PREFERRED); [now left|].
    destruct (Z.eqb_spec version VersionOption.LAST); [now right; left|].
    destruct (Z.eqb_spec version VersionOption.FIRST); [now right; right|].
    destruct (version =? VersionOption.ALL)%Z; discriminate.
Qed.

Lemma single_source_returns_one_witness :
  length (match snd (get_product first_seen example_store example_event
                       "origin" "ci" VersionOption.LAST) with
          | Returns ps => ps
          | _ => []
          end) = 1%nat.
Proof.
  destruct (get_product first_seen example_store example_event
              "origin" "ci" VersionOption.LAST) as [st' o] eqn:Hget.
  destruct o as [ps| |]; try (vm_compute in Hget; discriminate).
  simpl.
  apply (single_source_returns_one first_seen example_store st' example_event
           "origin" "ci" VersionOption.LAST ps); [discriminate|exact Hget].
Defined.

(** ** Selection over all sources *)





Lemma resolve_version_working version G :
  G <> [] ->
  version = VersionOption.PREFERRED \/ version = VersionOption.LAST \/
    version = VersionOption.FIRST ->
  exists row, resolve_version version G = Returns [row] /\ row ∈ G.
Proof.
  intros Hne Hv.
  assert (exists row, resolve_version version G = Returns [row]) as [row Hrow].
  { unfold resolve_version. destruct Hv as [-> | [-> | ->]]; simpl.
    - destruct (sort_last [Weight; Time] G Hne) as (row & -> & _). eauto.
    - destruct (last G) eqn:Hl; [eauto|]. apply last_None in Hl. congruence.
    - destruct G; [congruence|]. simpl. eauto. }
  exists row. split; [exact Hrow|].
  eapply resolve_version_subset; [exact Hrow|now left].
Qed.





(** ** Source 'preferred' *)

Lemma argmax_go_bound l : forall best_i best i,
  (best_i < i)%nat -> (argmax_go best_i best i l < i + length l)%nat.
Proof.
  induction l as [|x l IH]; intros best_i best i Hlt; simpl; [lia|].
  destruct (best <? x)%Z.
  - specialize (IH i x (S i) ltac:(lia)). lia.
  - specialize (IH best_i best (S i) ltac:(lia)). lia.
Qed.

Lemma argmax_bound l :
  l <> [] -> exists i, argmax l = Returns i /\ (i < length l)%nat.
Proof.
  destruct l as [|x l]; [congruence|]. intros _.
  exists (argmax_go 0 x 1 l). split; [reflexivity|].
  pose proof (argmax_go_bound l 0 x 1 ltac:(lia)). simpl. lia.
Qed.

(** Source 'preferred' is selection by the source of the submission that
    line 258 looks up, as long as that source is stored in full and a row
    carries it. *)
Lemma select_rows_preferred set_iter raw version :
  raw <> [] ->
  exists i d,
    argmax (Df.weight <$> version_table raw) = Returns i /\
    raw !! i = Some d /\
    (source_group (rstrip_nul (source d)) raw <> [] ->
     select_rows set_iter raw "preferred" version
     = resolve_version version (source_group (rstrip_nul (source d)) raw)).
Proof.
  intros Hne.
  destruct (argmax_bound (Df.weight <$> version_table raw)) as (i & Hi & Hlt).
  { intros Hnil. apply (version_table_nonempty raw Hne).
    now apply fmap_nil_inv in Hnil. }
  rewrite length_fmap, version_table_length in Hlt.
  destruct (lookup_lt_is_Some_2 raw i Hlt) as [d Hd].
  exists i, d. split; [exact Hi|]. split; [exact Hd|].
  intros Hgroup. unfold select_rows, select_source.
  cbn [String.eqb Ascii.eqb Bool.eqb]. rewrite Hi. cbn [outcome_bind].
  rewrite Hd. cbn [outcome_bind].
  rewrite (sort_time_group raw (rstrip_nul (source d)) (version_table raw))
    by reflexivity.
  destruct (source_group (rstrip_nul (source d)) raw) eqn:HG; [congruence|].
  reflexivity.
Qed.

Lemma submissions_of_all raw s :
  (forall d, d ∈ raw -> S64 (source d) = s) -> submissions_of s raw = raw.
Proof.
  unfold submissions_of. intros Hall.
  induction raw as [|d raw IH]; [reflexivity|].
  rewrite filter_cons_True by (apply Hall; now left).
  f_equal. apply IH. intros d' Hd'. apply Hall. now right.
Qed.

(** Byte-string comparison at line 259, one source throughout. *)
Lemma preferred_of_single_source_eq (set_iter : list string -> list string)
    (st : store) (ev : DetailEvent) (productName s : string) (version : Z)
    (locs : list loc) (raw : list RawSubmission)
    (Hlocs : products ev !! productName = Some locs)
    (Hraw : read_submissions st locs = Some raw)
    (Hne : raw <> [])
    (Hall : forall d, d ∈ raw -> source d = s)
    (Hfit : S64 s = s) (Hp : s <> "preferred") (Ha : s <> "all") :
  get_product set_iter st ev productName "preferred" version
  = get_product set_iter st ev productName s version.
Proof.
  pose proof (S64_fixed_rstrip s Hfit) as Hstrip.
  assert (source_group s raw <> []) as Hgroup.
  { apply source_group_nonempty. rewrite submissions_of_all; [exact Hne|].
    intros d Hd. now rewrite (Hall d Hd). }
  destruct (select_rows_preferred set_iter raw version Hne)
    as (i & d & _ & Hd & Hsel).
  assert (source d = s) as Hsd
    by (apply Hall; eapply list_elem_of_lookup_2; eassumption).
  rewrite Hsd, Hstrip in Hsel. specialize (Hsel Hgroup).
  unfold get_product. rewrite Hlocs, Hraw, Hsel.
  rewrite select_rows_explicit by assumption.
  destruct (source_group s raw) eqn:HG; [congruence|]. reflexivity.
Qed.

(** Byte-string comparison at line 259: the row that the policy picks in
    the group of the source found at the position [argmax] returned. *)
Lemma preferred_returns_one (set_iter : list string -> list string)
    (st : store) (ev : DetailEvent) (productName : string) (version : Z)
    (locs : list loc) (raw : list RawSubmission)
    (Hlocs : products ev !! productName = Some locs)
    (Hraw : read_submissions st locs = Some raw)
    (Hne : raw <> [])
    (Hfit : forall d, d ∈ raw -> S64 (source d) = source d)
    (Hv : version = VersionOption.PREFERRED \/ version = VersionOption.LAST \/
          version = VersionOption.FIRST) :
  exists st' p i chosen d l,
    get_product set_iter st ev productName "preferred" version
      = (st', Returns [p]) /\
    argmax (Df.weight <$> version_table raw) = Returns i /\
    raw !! i = Some chosen /\
    d ∈ submissions_of (source chosen) raw /\ dicts st !! l = Some d /\
    product_view st' p = (productName, _version p, deep_dict st l).
Proof.
  destruct (select_rows_preferred set_iter raw version Hne)
    as (i & chosen & Hi & Hc & Hsel).
  assert (chosen ∈ raw) as Hin by (eapply list_elem_of_lookup_2; eassumption).
  rewrite (S64_fixed_rstrip _ (Hfit chosen Hin)) in Hsel.
  assert (source_group (source chosen) raw <> []) as Hgroup.
  { apply source_group_nonempty. intros Hnil.
    assert (chosen ∈ submissions_of (source chosen) raw) as Hsub.
    { unfold submissions_of. apply list_elem_of_filter. split; [|exact Hin].
      now apply Hfit. }
    rewrite Hnil in Hsub. inversion Hsub. }
  specialize (Hsel Hgroup).
  destruct (resolve_version_working version _ Hgroup Hv) as (row & Hrow & Hrin).
  rewrite Hrow in Hsel.
  destruct (get_product_single set_iter st ev productName "preferred" version
              locs raw row Hlocs Hraw Hsel)
    as (st' & p & d & l & Hget & Hd & Hl & Hdl & Hr & Hview).
  exists st', p, i, chosen, d, l.
  split; [exact Hget|]. split; [exact Hi|]. split; [exact Hc|].
  split; [|split; [exact Hdl|]].
  - unfold submissions_of. apply list_elem_of_filter. split.
    + apply (source_group_elem raw _ row) in Hrin as [_ Hsrc].
      rewrite Hr in Hsrc. exact Hsrc.
    + eapply list_elem_of_lookup_2; eassumption.
  - assert (_version p = Df.version row) as ->
      by (unfold product_view in Hview; congruence).
    exact Hview.
Qed.

Lemma returns_working_version set_iter st st' ev productName source_arg
    version ps :
  source_arg <> "all" ->
  get_product set_iter st ev productName source_arg version
    = (st', Returns ps) ->
  version = VersionOption.PREFERRED \/ version = VersionOption.LAST \/
    version = VersionOption.FIRST.
Proof.
  intros Hsrc Hget. unfold get_product in Hget.
  destruct (products ev !! productName) as [locs|]; [|discriminate].
  destruct (read_submissions st locs) as [raw|]; [|discriminate].
  destruct (select_rows set_iter raw source_arg version) as [rows| |] eqn:Hsel;
    try discriminate.
  unfold select_rows in Hsel.
  destruct (select_source raw (version_table raw) source_arg) as [df| |];
    simpl in Hsel; try discriminate.
  apply String.eqb_neq in Hsrc. rewrite Hsrc in Hsel.
  unfold resolve_version in Hsel.
  destruct (Z.eqb_spec version VersionOption.PREFERRED); [now left|].
  destruct (Z.eqb_spec version VersionOption.LAST); [now right; left|].
  destruct (Z.eqb_spec version VersionOption.FIRST); [now right; right|].
  destruct (version =? VersionOption.ALL)%Z; discriminate.
Qed.

Lemma preferred_returns_nonempty set_iter st st' ev productName version
    locs raw ps :
  products ev !! productName = Some locs ->
  read_submissions st locs = Some raw ->
  get_product set_iter st ev productName "preferred" version
    = (st', Returns ps) ->
  raw <> [].
Proof.
  intros Hlocs Hraw Hget ->. unfold get_product in Hget.
  rewrite Hlocs, Hraw in Hget. discriminate.
Qed.

(** X10: when every submission of a product type carries the same source
    [s] (in its stored form, and neither of the two keywords), whatever
    [get_product] returns for source 'preferred' it returns for the explicit
    source [s] too, under every version policy: the position that [argmax]
    returns can only land on a submission of [s]. *)
Theorem preferred_of_single_source (set_iter : list string -> list string)
    (st st' : store) (ev : DetailEvent) (productName s : string) (version : Z)
    (locs : list loc) (raw : list RawSubmission) (ps : list Product)
    (Hlocs : products ev !! productName = Some locs)
    (Hraw : read_submissions st locs = Some raw)
    (Hall : forall d, d ∈ raw -> source d = s)
    (Hfit : S64 s = s) (Hp : s <> "preferred") (Ha : s <> "all")
    (Hget : get_product set_iter st ev productName "preferred" version
            = (st', Returns ps)) :
  get_product set_iter st ev productName s version = (st', Returns ps).
Proof.
  pose proof (preferred_returns_nonempty _ _ _ _ _ _ _ _ _ Hlocs Hraw Hget)
    as Hne.
  rewrite <- (preferred_of_single_source_eq set_iter st ev productName s
                version locs raw Hlocs Hraw Hne Hall Hfit Hp Ha).
  exact Hget.
Qed.

Lemma preferred_of_single_source_witness :
  exists st' ps,
    get_product first_seen tie_store
      (mkEvent "ev" 0 {[ "shakemap" := [1%positive] ]}) "shakemap" "us"
      VersionOption.LAST = (st', Returns ps).
Proof.
  destruct (get_product first_seen tie_store
              (mkEvent "ev" 0 {[ "shakemap" := [1%positive] ]}) "shakemap"
              "preferred" VersionOption.LAST) as [st' o] eqn:Hget.
  destruct o as [ps| |]; try (vm_compute in Hget; discriminate).
  exists st', ps.
  apply (preferred_of_single_source first_seen tie_store st' _ "shakemap" "us"
           VersionOption.LAST [1%positive]
           [mkRaw 1 "us" 100 11%positive 21%positive] ps);
    try reflexivity; try discriminate; try exact Hget.
  intros d Hd. apply list_elem_of_singleton in Hd as ->. reflexivity.
Defined.

(** X11: whenever [get_product] with source 'preferred' returns, on
    submissions whose sources are all in stored form, it returns one product,
    and the submission it shows carries the source of the submission found in
    the submission list at the position that [argmax] returned for the sorted
    table, whichever submission has the greatest weight. *)
Theorem preferred_shows_indexed_source (set_iter : list string -> list string)
    (st st' : store) (ev : DetailEvent) (productName : string) (version : Z)
    (locs : list loc) (raw : list RawSubmission) (ps : list Product)
    (Hlocs : products ev !! productName = Some locs)
    (Hraw : read_submissions st locs = Some raw)
    (Hfit : forall d, d ∈ raw -> S64 (source d) = source d)
    (Hget : get_product set_iter st ev productName "preferred" version
            = (st', Returns ps)) :
  exists p i chosen d l,
    ps = [p] /\
    argmax (Df.weight <$> version_table raw) = Returns i /\
    raw !! i = Some chosen /\
    d ∈ raw /\ source d = source chosen /\ dicts st !! l = Some d /\
    product_view st' p = (productName, _version p, deep_dict st l).
Proof.
  pose proof (preferred_returns_nonempty _ _ _ _ _ _ _ _ _ Hlocs Hraw Hget)
    as Hne.
  assert ("preferred" <> "all") as Hpa by discriminate.
  pose proof (returns_working_version _ _ _ _ _ _ _ _ Hpa Hget) as Hv.
  destruct (preferred_returns_one set_iter st ev productName version locs raw
              Hlocs Hraw Hne Hfit Hv)
    as (st2 & p & i & chosen & d & l & Hget2 & Hi & Hc & Hd & Hdl & Hview).
  rewrite Hget2 in Hget. injection Hget as <- <-.
  unfold submissions_of in Hd. apply list_elem_of_filter in Hd as [Hsrc Hd].
  exists p, i, chosen, d, l. repeat (split; [assumption || reflexivity|]).
  split; [|split; [exact Hdl|exact Hview]].
  now rewrite <- (Hfit d Hd).
Qed.

Lemma preferred_shows_indexed_source_witness :
  exists chosen,
    [origin_us_100; origin_us_200; origin_ci_150] !! 0%nat = Some chosen /\
    source chosen = "us".
Proof.
  destruct (get_product first_seen example_store example_event "origin"
              "preferred" VersionOption.FIRST) as [st' o] eqn:Hget.
  destruct o as [ps| |]; try (vm_compute in Hget; discriminate).
  destruct (preferred_shows_indexed_source first_seen example_store st'
              example_event "origin" VersionOption.FIRST
              [1%positive; 2%positive; 3%positive]
              [origin_us_100; origin_us_200; origin_ci_150] ps)
    as (p & i & chosen & d & l & _ & Hi & Hc & _);
    [reflexivity|reflexivity| |exact Hget|].
  - intros d Hd. repeat (apply elem_of_cons in Hd as [->|Hd]; [reflexivity|]).
    inversion Hd.
  - vm_compute in Hi. injection Hi as <-. exists chosen. split; [exact Hc|].
    simpl in Hc. injection Hc as <-. reflexivity.
Defined.

(** ** Content lookup, continued *)

Section contents_more_properties.

Variable re_search : string -> string -> bool.
Variable urlparse_path : string -> string.

#[local] Abbreviation fname := (fname_of urlparse_path).
#[local] Abbreviation flen := (fname_length urlparse_path).
#[local] Abbreviation hit := (matches re_search).
#[local] Abbreviation nstep := (name_step re_search urlparse_path).
#[local] Abbreviation ustep := (url_step re_search urlparse_path).
#[local] Abbreviation fstep := (fetch_step re_search urlparse_path).
#[local] Abbreviation nscan := (scan_name re_search urlparse_path).
#[local] Abbreviation uscan := (scan_url re_search urlparse_path).
#[local] Abbreviation ninv := (name_inv re_search urlparse_path).

Lemma fold_name_step_inv regexp items : forall seen cn found,
  ninv regexp seen cn found ->
  exists cn' found',
    fold_left (nstep regexp) items (cn, found) = (cn', found') /\
    ninv regexp (seen ++ items) cn' found'.
Proof.
  induction items as [|item items IH]; intros seen cn found Hinv.
  { exists cn, found. split; [reflexivity|]. now rewrite app_nil_r. }
  cbn [fold_left].
  replace (seen ++ item :: items) with ((seen ++ [item]) ++ items)
    by now rewrite <- app_assoc.
  destruct Hinv as (Hle & Hmin & Hfound & Hnot).
  destruct (name_step_cases re_search urlparse_path regexp cn found item)
    as [(Hm & Hl & ->)|(Hn & ->)]; apply IH.
  - unfold fname_length in Hl. repeat split.
    + lia.
    + intros x Hx Hhit. apply elem_of_app in Hx as [Hx|Hx].
      * specialize (Hmin x Hx Hhit). lia.
      * apply list_elem_of_singleton in Hx as ->. unfold fname_length. lia.
    + intros _. exists item. repeat split; try assumption; try lia.
      apply elem_of_app. right. now left.
    + discriminate.
  - repeat split.
    + exact Hle.
    + intros x Hx Hhit. apply elem_of_app in Hx as [Hx|Hx]; [now apply Hmin|].
      apply list_elem_of_singleton in Hx as ->.
      destruct Hn as [Hn|Hn]; [contradiction|exact Hn].
    + intros Hf. destruct (Hfound Hf) as (it & Hit & Hrest).
      exists it. split; [|exact Hrest]. apply elem_of_app. now left.
    + exact Hnot.
Qed.

Lemma scan_name_inv regexp items :
  exists cn found,
    fold_left (nstep regexp) items (string_mul "a" 1000, false) = (cn, found) /\
    ninv regexp items cn found.
Proof.
  destruct (fold_name_step_inv regexp items [] (string_mul "a" 1000) false)
    as (cn & found & Hfold & Hinv).
  - repeat split; try discriminate.
    + rewrite sentinel_length. lia.
    + intros x Hx. inversion Hx.
  - exists cn, found. split; [exact Hfold|exact Hinv].
Qed.

(** X12: [get_content_name] returns None exactly when no entry whose key
    matches has a file name shorter than 1000 characters; otherwise it
    returns the file name of an entry whose key matches, and no matching
    entry has a shorter file name. *)
Theorem content_name_is_shortest (st : store) (p : Product) (regexp : string)
    (items : list (string * Content))
    (Hitems : contents_items st p = Some items) :
  (get_content_name re_search urlparse_path st p regexp = Returns None <->
   forall x, x ∈ items -> hit regexp x -> (1000 <= flen x)%nat) /\
  (forall name,
     get_content_name re_search urlparse_path st p regexp = Returns (Some name) ->
     exists item,
       item ∈ items /\ hit regexp item /\ fname (snd item) = name /\
       (String.length name < 1000)%nat /\
       forall x, x ∈ items -> hit regexp x -> (String.length name <= flen x)%nat).
Proof.
  unfold get_content_name. rewrite Hitems. unfold scan_name.
  destruct (scan_name_inv regexp items)
    as (cn & found & -> & Hle & Hmin & Hfound & Hnot).
  split; [split|].
  - intros H x Hx Hhit. destruct found; [discriminate|].
    rewrite <- (Hnot eq_refl). now apply Hmin.
  - intros Hall. destruct found; [|reflexivity].
    destruct (Hfound eq_refl) as (item & Hin & Hhit & Hname & Hlt).
    specialize (Hall item Hin Hhit). unfold fname_length in Hall.
    rewrite Hname in Hall. lia.
  - intros name Hname. destruct found; [|discriminate].
    injection Hname as <-.
    destruct (Hfound eq_refl) as (item & Hin & Hhit & Hname & Hlt).
    exists item. repeat split; assumption.
Qed.

(** One iteration of [get_content_url] keeps the URL of the entry whose
    name it keeps. *)
Lemma fold_url_step_inv regexp items : forall seen cn found cu,
  (found = true ->
     exists item, item ∈ seen /\ hit regexp item /\
                  url (snd item) = cu /\ fname (snd item) = cn) ->
  exists cn' found' cu',
    fold_left (ustep regexp) items (cn, found, cu) = (cn', found', cu') /\
    (found' = true ->
       exists item, item ∈ seen ++ items /\ hit regexp item /\
                    url (snd item) = cu' /\ fname (snd item) = cn').
Proof.
  induction items as [|item items IH]; intros seen cn found cu Hinv.
  { exists cn, found, cu. split; [reflexivity|]. now rewrite app_nil_r. }
  cbn [fold_left].
  replace (seen ++ item :: items) with ((seen ++ [item]) ++ items)
    by now rewrite <- app_assoc.
  unfold url_step at 2. destruct item as [key content].
  destruct (re_search (String.append regexp "$") key) eqn:Hm; cbn [negb].
  - destruct (String.length (fname content) <? String.length cn)%nat.
    + apply IH. intros _. exists (key, content). repeat split.
      * apply elem_of_app. right. now left.
      * exact Hm.
    + apply IH. intros Hf. destruct (Hinv Hf) as (it & Hit & Hrest).
      exists it. split; [|exact Hrest]. apply elem_of_app. now left.
  - apply IH. intros Hf. destruct (Hinv Hf) as (it & Hit & Hrest).
    exists it. split; [|exact Hrest]. apply elem_of_app. now left.
Qed.

(** X13: [get_content_url] returns None exactly when [get_content_name]
    does, and a URL it returns is the URL of an entry whose key matches and
    whose file name is the name that [get_content_name] returns. *)
Theorem content_url_matches_name (st : store) (p : Product) (regexp : string)
    (items : list (string * Content))
    (Hitems : contents_items st p = Some items) :
  (get_content_url re_search urlparse_path st p regexp = Returns None <->
   get_content_name re_search urlparse_path st p regexp = Returns None) /\
  (forall u,
     get_content_url re_search urlparse_path st p regexp = Returns (Some u) ->
     exists item,
       item ∈ items /\ hit regexp item /\ url (snd item) = u /\
       get_content_name re_search urlparse_path st p regexp
       = Returns (Some (fname (snd item)))).
Proof.
  unfold get_content_url, get_content_name. rewrite Hitems. split.
  - pose proof (scan_url_found re_search urlparse_path regexp items) as H.
    split; intros Hn; f_equal; apply H; congruence.
  - intros u Hu. injection Hu as Hu. unfold scan_url in Hu. unfold scan_name.
    pose proof (fold_url_step_name re_search urlparse_path regexp items
                  (string_mul "a" 1000) false EmptyString) as Hname.
    destruct (fold_url_step_inv regexp items [] (string_mul "a" 1000) false
                EmptyString ltac:(discriminate))
      as (cn & found & cu & Hfold & Hinv).
    rewrite Hfold in Hu, Hname. cbn [fst] in Hname. rewrite <- Hname.
    destruct found; [|discriminate]. injection Hu as <-.
    destruct (Hinv eq_refl) as (item & Hin & Hhit & Hurl & Hfn).
    exists item. repeat split; try assumption. now rewrite Hfn.
Qed.

Lemma matching_names_elem regexp items name :
  name ∈ matching_names re_search urlparse_path regexp items <->
  exists item, item ∈ items /\ fname (snd item) = name /\
               re_search (String.append regexp "$") name = true.
Proof.
  unfold matching_names. destruct items as [|it items].
  { split; [intros H; inversion H|intros (item & H & _); inversion H]. }
  rewrite list_elem_of_omap. split.
  - intros (item & Hin & Hf).
    destruct (re_search (String.append regexp "$") (fname (snd item))) eqn:Hm;
      [|discriminate].
    injection Hf as <-. exists item. auto.
  - intros (item & Hin & <- & Hm). exists item. split; [exact Hin|].
    simpl. now rewrite Hm.
Qed.

(** X14: when the pattern matches the key of a content entry exactly when
    it matches the entry's file name, the name that [get_content_name]
    returns is one of the names that [get_contents_matching] returns and none
    of those is shorter; and every listed name shorter than 1000 characters
    makes [get_content_name] return a name. *)
Theorem content_name_among_matching (st : store) (p : Product)
    (regexp : string) (items : list (string * Content))
    (Hitems : contents_items st p = Some items)
    (Hkey : forall item, item ∈ items ->
       re_search (String.append regexp "$") (fst item)
       = re_search (String.append regexp "$") (fname (snd item))) :
  exists names,
    get_contents_matching re_search urlparse_path st p regexp = Returns names /\
    (forall name,
       get_content_name re_search urlparse_path st p regexp
         = Returns (Some name) ->
       name ∈ names /\
       forall m, m ∈ names -> (String.length name <= String.length m)%nat) /\
    (get_content_name re_search urlparse_path st p regexp = Returns None ->
     forall m, m ∈ names -> (1000 <= String.length m)%nat).
Proof.
  exists (matching_names re_search urlparse_path regexp items).
  split; [unfold get_contents_matching; now rewrite Hitems|].
  assert (get_content_name re_search urlparse_path st p regexp
          = Returns (scan_name re_search urlparse_path regexp items)) as Hget
    by (unfold get_content_name; now rewrite Hitems).
  rewrite Hget. unfold scan_name.
  destruct (scan_name_inv regexp items)
    as (cn & found & -> & Hle & Hmin & Hfound & Hnot).
  assert (forall m, m ∈ matching_names re_search urlparse_path regexp items ->
                    (String.length cn <= String.length m)%nat) as Hshort.
  { intros m Hm. apply matching_names_elem in Hm as (x & Hx & <- & Hhit).
    apply (Hmin x Hx). unfold matches. now rewrite (Hkey x Hx). }
  split.
  - intros name Hname. destruct found; [|discriminate].
    injection Hname as <-.
    destruct (Hfound eq_refl) as (item & Hin & Hhit & Hname & Hlt).
    split; [|exact Hshort].
    apply matching_names_elem. exists item. repeat split; try assumption.
    rewrite <- Hname, <- (Hkey item Hin). exact Hhit.
  - intros Hnone m Hm. destruct found; [discriminate|].
    rewrite <- (Hnot eq_refl). now apply Hshort.
Qed.

(** The loop of [fetch] runs the scan of [get_content_name] and keeps, in
    [url], the URL of the last entry whose key matched. *)
Lemma fold_fetch_step regexp items : forall cn cu uv found,
  (cu = None <-> found = false) ->
  exists cn' cu' uv' found',
    fold_left (fstep regexp) items (cn, cu, uv) = (cn', cu', uv') /\
    fold_left (nstep regexp) items (cn, found) = (cn', found') /\
    (cu' = None <-> found' = false) /\
    uv' = match last (filter (fun it => re_search (String.append regexp "$")
                                          (fst it) = true) items) with
          | Some it => Some (url (snd it))
          | None => uv
          end.
Proof.
  induction items as [|item items IH]; intros cn cu uv found Hcu.
  { exists cn, cu, uv, found. repeat split; try apply Hcu. }
  cbn [fold_left]. rewrite filter_cons.
  unfold fetch_step at 2, name_step at 2. destruct item as [key content].
  cbn [fst snd].
  destruct (re_search (String.append regexp "$") key) eqn:Hm; cbn [negb].
  - destruct (decide (true = true)) as [_|Hne]; [|congruence].
    rewrite last_cons.
    destruct (String.length (fname content) <? String.length cn)%nat.
    + destruct (IH (fname content) (Some (url content)) (Some (url content)) true)
        as (cn' & cu' & uv' & found' & H1 & H2 & H3 & H4).
      { split; discriminate. }
      exists cn', cu', uv', found'. repeat split; try assumption; try apply H3.
      rewrite H4. now destruct (last _).
    + destruct (IH cn cu (Some (url content)) found Hcu)
        as (cn' & cu' & uv' & found' & H1 & H2 & H3 & H4).
      exists cn', cu', uv', found'. repeat split; try assumption; try apply H3.
      rewrite H4. now destruct (last _).
  - destruct (decide (false = true)) as [Hne|_]; [discriminate|].
    apply IH. exact Hcu.
Qed.

(** X15: [Product.fetch] issues a request exactly when [get_content_url]
    returns a URL, but the URL it requests is that of the last entry whose
    key matches the pattern, whatever the lengths of the file names. *)
Theorem fetch_requests_last_match (st : store) (p : Product) (regexp : string)
    (items : list (string * Content))
    (Hitems : contents_items st p = Some items) :
  (Product_fetch_request re_search urlparse_path st p regexp = Returns None <->
   get_content_url re_search urlparse_path st p regexp = Returns None) /\
  (forall u,
     Product_fetch_request re_search urlparse_path st p regexp
       = Returns (Some u) ->
     exists pre item post,
       items = pre ++ item :: post /\ hit regexp item /\
       url (snd item) = u /\
       forall x, x ∈ post -> ~ hit regexp x).
Proof.
  unfold Product_fetch_request, get_content_url. rewrite Hitems.
  unfold fetch_request.
  destruct (fold_fetch_step regexp items (string_mul "a" 1000) None None false)
    as (cn & cu & uv & found & Hfold & Hname & Hcu & Huv); [tauto|].
  rewrite Hfold.
  assert (scan_name re_search urlparse_path regexp items
          = if found then Some cn else None) as Hscan
    by (unfold scan_name; now rewrite Hname).
  pose proof (scan_url_found re_search urlparse_path regexp items) as Hurl.
  split.
  - split; intros H.
    + f_equal. apply Hurl. rewrite Hscan.
      destruct cu as [c|].
      * destruct uv; [discriminate|].
        destruct found; [|destruct Hcu as [_ Hcu]; now specialize (Hcu eq_refl)].
        exfalso.
        destruct (scan_name_inv regexp items) as (cn2 & f2 & Hf2 & Hinv).
        rewrite Hname in Hf2. injection Hf2 as <- <-.
        destruct Hinv as (_ & _ & Hfound & _).
        destruct (Hfound eq_refl) as (item & Hin & Hhit & _).
        assert (item ∈ filter (fun it => re_search (String.append regexp "$")
                                           (fst it) = true) items) as Hfil
          by (apply list_elem_of_filter; split; assumption).
        destruct (last (filter _ items)) eqn:Hlast; [discriminate|].
        apply last_None in Hlast. rewrite Hlast in Hfil. inversion Hfil.
      * destruct found; [|reflexivity].
        destruct Hcu as [Hcu _]. now specialize (Hcu eq_refl).
    + injection H as H. apply Hurl in H. rewrite Hscan in H.
      destruct found; [discriminate|].
      destruct Hcu as [_ Hcu]. now rewrite (Hcu eq_refl).
  - intros u Hu. injection Hu as Hu.
    destruct cu as [c|]; [|discriminate]. subst uv.
    destruct (last (filter _ items)) as [item|] eqn:Hlast; [|discriminate].
    injection Hu as <-.
    pose proof (last_Some_elem_of _ _ Hlast) as Hin.
    apply list_elem_of_filter in Hin as [Hhit _].
    apply last_filter_Some in Hlast as (pre & post & -> & Hpost).
    exists pre, item, post. repeat split; try assumption.
    intros x Hx. rewrite Forall_forall in Hpost. now apply Hpost.
Qed.

End contents_more_properties.

Lemma content_name_is_shortest_witness :
  exists item,
    item ∈ [tie_first; tie_second] /\
    fname_of path_of_plain_url (snd item) = "a.xml".
Proof.
  destruct (content_name_is_shortest search_literal path_of_plain_url
              tie_store tie_product "xml" [tie_first; tie_second] eq_refl)
    as [_ H].
  destruct (H "a.xml" eq_refl) as (item & Hin & _ & Hname & _).
  exists item. split; assumption.
Defined.

Lemma content_url_matches_name_witness :
  exists item,
    item ∈ [tie_first; tie_second] /\
    url (snd item) = "https://host/product/a.xml".
Proof.
  destruct (content_url_matches_name search_literal path_of_plain_url
              tie_store tie_product "xml" [tie_first; tie_second] eq_refl)
    as [_ H].
  destruct (H "https://host/product/a.xml" eq_refl) as (item & Hin & _ & Hu & _).
  exists item. split; assumption.
Defined.

Lemma content_name_among_matching_witness :
  exists names,
    get_contents_matching search_literal path_of_plain_url tie_store
      tie_product "xml" = Returns names /\
    "a.xml" ∈ names.
Proof.
  destruct (content_name_among_matching search_literal path_of_plain_url
              tie_store tie_product "xml" [tie_first; tie_second] eq_refl)
    as (names & Hnames & Hsome & _).
  - intros item Hin.
    repeat (apply elem_of_cons in Hin as [->|Hin]; [reflexivity|]).
    inversion Hin.
  - exists names. split; [exact Hnames|].
    now destruct (Hsome "a.xml" eq_refl).
Defined.

Lemma fetch_requests_last_match_witness :
  exists pre item post,
    [tie_first; tie_second] = pre ++ item :: post /\
    url (snd item) = "https://host/product/b.xml" /\
    get_content_url search_literal path_of_plain_url tie_store tie_product "xml"
    = Returns (Some "https://host/product/a.xml").
Proof.
  destruct (fetch_requests_last_match search_literal path_of_plain_url
              tie_store tie_product "xml" [tie_first; tie_second] eq_refl)
    as [_ H].
  destruct (H "https://host/product/b.xml" eq_refl)
    as (pre & item & post & Heq & _ & Hu & _).
  exists pre, item, post. repeat split; assumption || reflexivity.
Defined.

(** ** Product properties *)

Lemma getitem_setitem_eq {V} k (v : V) kv : getitem k (setitem k v kv) = Some v.
Proof.
  induction kv as [|[k' v'] kv IH]; simpl.
  - now rewrite String.eqb_refl.
  - destruct (String.eqb k' k) eqn:Hk; simpl.
    + now rewrite String.eqb_refl.
    + now rewrite Hk.
Qed.

Lemma getitem_setitem_ne {V} k k' (v : V) kv :
  k' <> k -> getitem k' (setitem k v kv) = getitem k' kv.
Proof.
  intros Hne. induction kv as [|[k0 v0] kv IH]; simpl.
  - apply not_eq_sym, String.eqb_neq in Hne. now rewrite Hne.
  - destruct (String.eqb k0 k) eqn:Hk; simpl.
    + apply String.eqb_eq in Hk. subst k0.
      apply not_eq_sym, String.eqb_neq in Hne. now rewrite Hne.
    + now rewrite IH.
Qed.

Lemma getitem_is_Some {V} k (kv : list (string * V)) :
  is_Some (getitem k kv) <-> k ∈ fst <$> kv.
Proof.
  induction kv as [|[k' v'] kv IH]; simpl.
  - split; [intros [? ?]; discriminate|intros H; inversion H].
  - rewrite elem_of_cons. simpl. destruct (String.eqb_spec k' k) as [->|Hne].
    + split; eauto.
    + rewrite IH. split; [now right|]. intros [Heq|Hin]; [congruence|exact Hin].
Qed.

(** X16: [Product.__getitem__], [Product.has_property] and
    [Product.properties] agree: the lookup returns a value exactly when
    [has_property] is true, which is exactly when the key is among the keys
    listed, and it raises the AttributeError naming the key and the product
    type exactly when [has_property] is false. *)
Theorem product_property_access_agrees (st : store) (p : Product)
    (key : string) (kv : list (string * string))
    (Hkv : properties_items st p = Some kv) :
  ((exists v, Product_getitem st p key = Property v) <->
   Product_has_property st p key = Returns true) /\
  (Product_getitem st p key = NoProperty key (_product_name p) <->
   Product_has_property st p key = Returns false) /\
  (Product_has_property st p key = Returns true <->
   exists keys, Product_properties st p = Returns keys /\ key ∈ keys).
Proof.
  unfold Product_getitem, Product_has_property, Product_properties.
  rewrite Hkv. pose proof (getitem_is_Some key kv) as Hkeys.
  destruct (getitem key kv) as [v|].
  - split; [|split].
    + split; [reflexivity|eauto].
    + split; discriminate.
    + split; [|reflexivity]. intros _. exists (fst <$> kv).
      split; [reflexivity|]. apply Hkeys. eauto.
  - split; [|split].
    + split; [intros [v Hv]|]; discriminate.
    + split; reflexivity.
    + split; [discriminate|]. intros (keys & Hk & Hin). injection Hk as <-.
      apply Hkeys in Hin as [v Hv]. discriminate.
Qed.

Lemma product_property_access_agrees_witness :
  Product_has_property example_store (mkProduct "origin" 1 3%positive)
    "magnitude" = Returns true.
Proof.
  destruct (product_property_access_agrees example_store
              (mkProduct "origin" 1 3%positive) "magnitude"
              [("magnitude", "4.4")] eq_refl) as [[H _] _].
  apply H. exists "4.4". reflexivity.
Defined.

Lemma Product_init_dict st product_name version l st' p :
  Product_init st product_name version l = Some (st', p) ->
  exists d, dicts st !! l = Some d /\ dicts st' !! _product p = Some d /\
            store_extends st st' /\ (_product p ∉ dom (dicts st)).
Proof.
  intros Hinit. pose proof Hinit as Hext.
  apply Product_init_extends in Hext as (Hext & Hfresh & _).
  unfold Product_init, dict_copy in Hinit.
  destruct (dicts st !! l) as [d|] eqn:Hd; [|discriminate]. simpl in Hinit.
  injection Hinit as <- <-. exists d. simpl.
  rewrite lookup_insert_eq. auto.
Qed.

(** X17: two Products built from the same submission share its
    ["properties"] mapping: after an item assignment made through one of
    them, both read the new value under that key, every other key reads as
    before, and the event's own submission shows the assignment too. *)
Theorem products_share_properties (st st1 st2 : store) (l : loc)
    (name1 name2 : string) (v1 v2 : Z) (p q : Product) (key value : string)
    (kv : list (string * string))
    (Hp : Product_init st name1 v1 l = Some (st1, p))
    (Hq : Product_init st1 name2 v2 l = Some (st2, q))
    (Hkv : properties_items st2 p = Some kv) :
  let st3 := mutate st2 p (Properties_setitem key value) in
  Product_getitem st3 p key = Property value /\
  Product_getitem st3 q key = Property value /\
  (forall k, k <> key -> Product_getitem st3 q k = Product_getitem st2 q k) /\
  deep_dict st3 l
  = (fun '(d, _, c) => (d, Some (setitem key value kv), c)) <$> deep_dict st2 l.
Proof.
  destruct (Product_init_dict _ _ _ _ _ _ Hp) as (d & Hd & Hdp & Hext1 & Hfp).
  destruct (Product_init_dict _ _ _ _ _ _ Hq) as (d' & Hd' & Hdq & Hext2 & Hfq).
  destruct Hext1 as (Hsub1 & _). destruct Hext2 as (Hsub2 & _).
  assert (d' = d) as ->
    by (rewrite (lookup_weaken _ _ _ _ Hd Hsub1) in Hd'; congruence).
  pose proof (lookup_weaken _ _ _ _ Hdp Hsub2) as Hdp2.
  pose proof (lookup_weaken _ _ _ _ Hd' Hsub2) as Hdl2.
  unfold properties_items in Hkv. rewrite Hdp2 in Hkv. simpl in Hkv.
  cbv zeta. unfold Product_getitem, properties_items, deep_dict, mutate.
  rewrite Hdp2. cbn [dicts propertymaps contentmaps].
  rewrite Hdp2, Hdq, Hdl2. simpl.
  rewrite !lookup_alter_eq, Hkv. simpl.
  rewrite getitem_setitem_eq. repeat split.
  intros k Hk. now rewrite getitem_setitem_ne.
Qed.

Lemma products_share_properties_witness :
  exists st2 p q,
    Product_getitem (mutate st2 p (Properties_setitem "magnitude" "9.9")) q
      "magnitude" = Property "9.9".
Proof.
  destruct (Product_init example_store "origin" 1 3%positive)
    as [[st1 p]|] eqn:Hp; [|vm_compute in Hp; discriminate].
  destruct (Product_init st1 "origin" 1 3%positive)
    as [[st2 q]|] eqn:Hq;
    [|vm_compute in Hp; injection Hp as <- <-; vm_compute in Hq; discriminate].
  exists st2, p, q.
  refine (proj1 (proj2 (products_share_properties example_store st1 st2
                          3%positive "origin" "origin" 1 1 p q
                          "magnitude" "9.9" [("magnitude", "4.4")] Hp Hq _))).
  vm_compute in Hp. injection Hp as <- <-.
  vm_compute in Hq. injection Hq as <- <-. reflexivity.
Defined.

(** ** Versions and [get_num_versions] *)

Lemma make_products_versions productName locs rows : forall st st' ps,
  make_products st productName locs rows = (st', Returns ps) ->
  _version <$> ps = Df.version <$> rows.
Proof.
  induction rows as [|row rows IH]; intros st st' ps.
  - simpl. intros H. injection H as <- <-. reflexivity.
  - cbn [make_products]. destruct (locs !! Df.index row); [|discriminate].
    destruct (Product_init st productName (Df.version row) l)
      as [[st1 p]|] eqn:Hinit; [|discriminate].
    destruct (make_products st1 productName locs rows) as [st2 o] eqn:Hmk.
    destruct o as [ps'| |]; simpl; try discriminate.
    intros H. injection H as <- <-. rewrite !fmap_cons. f_equal.
    + unfold Product_init in Hinit.
      destruct (dict_copy st l) as [[s0 l0]|]; [|discriminate].
      simpl in Hinit. now injection Hinit as <- <-.
    + eapply IH. exact Hmk.
Qed.

Lemma read_submissions_length st locs raw :
  read_submissions st locs = Some raw -> length raw = length locs.
Proof.
  unfold read_submissions. intros H. apply mapM_Some_1 in H.
  symmetry. eapply Forall2_length. exact H.
Qed.

(** X18: whenever [get_product] returns products, [has_product] holds and
    [get_num_versions] returns a count, and the version of every returned
    product lies between 1 and that count. *)
Theorem returned_versions_within_count (set_iter : list string -> list string)
    (st st' : store) (ev : DetailEvent) (productName source_arg : string)
    (version : Z) (ps : list Product)
    (Hget : get_product set_iter st ev productName source_arg version
            = (st', Returns ps)) :
  has_product ev productName = true /\
  exists n,
    get_num_versions ev productName = Returns n /\
    Forall (fun p => 1 <= Product_version p <= Z.of_nat n) ps.
Proof.
  unfold get_product in Hget. unfold get_num_versions, has_product.
  destruct (products ev !! productName) as [locs|] eqn:Hlocs; [|discriminate].
  split; [apply bool_decide_eq_true; eauto|].
  exists (length locs). split; [reflexivity|].
  destruct (read_submissions st locs) as [raw|] eqn:Hraw; [|discriminate].
  destruct (select_rows set_iter raw source_arg version) as [rows| |] eqn:Hsel;
    try discriminate.
  destruct (make_products st productName locs rows) as [st2 o] eqn:Hmk.
  destruct o as [ps'| |]; try discriminate. injection Hget as <- <-.
  apply make_products_versions in Hmk.
  apply Forall_forall. intros p Hp. unfold Product_version.
  apply (list_elem_of_fmap_2 _version) in Hp. rewrite Hmk in Hp.
  apply list_elem_of_fmap in Hp as (row & -> & Hrow).
  eapply select_rows_subset in Hrow; [|exact Hsel].
  pose proof (version_table_version_bounds raw row Hrow) as Hb.
  pose proof (source_group_length_le raw (Df.source row)) as Hle.
  rewrite (read_submissions_length _ _ _ Hraw) in Hle. lia.
Qed.

Lemma returned_versions_within_count_witness :
  has_product example_event "origin" = true /\
  get_num_versions example_event "origin" = Returns 3%nat.
Proof.
  destruct (get_product first_seen example_store example_event "origin" "us"
              VersionOption.LAST) as [st' o] eqn:Hget.
  destruct o as [ps| |]; try (vm_compute in Hget; discriminate).
  destruct (returned_versions_within_count first_seen example_store st'
              example_event "origin" "us" VersionOption.LAST ps Hget)
    as (Hhas & n & Hn & _).
  split; [exact Hhas|reflexivity].
Defined.

(** ** Each product has a dictionary of its own *)

Lemma make_products_fresh productName locs rows : forall st st' ps,
  make_products st productName locs rows = (st', Returns ps) ->
  store_extends st st' /\
  NoDup (_product <$> ps) /\
  Forall (fun p => _product p ∉ dom (dicts st)) ps /\
  Forall (fun p => is_Some (dicts st' !! _product p)) ps.
Proof.
  induction rows as [|row rows IH]; intros st st' ps.
  - simpl. intros H. injection H as <- <-.
    split; [apply store_extends_refl|]. repeat split; constructor.
  - cbn [make_products]. destruct (locs !! Df.index row); [|discriminate].
    destruct (Product_init st productName (Df.version row) l)
      as [[st1 p]|] eqn:Hinit; [|discriminate].
    destruct (make_products st1 productName locs rows) as [st2 o] eqn:Hmk.
    destruct o as [ps'| |]; simpl; try discriminate.
    intros H. injection H as <- <-.
    destruct (Product_init_dict _ _ _ _ _ _ Hinit) as (d & Hd & Hdp & Hext1 & Hfp).
    destruct (IH st1 st2 ps' Hmk) as (Hext2 & Hnd & Hfresh & Hsome).
    pose proof Hext1 as (Hsub1 & _). pose proof Hext2 as (Hsub2 & _).
    rewrite Forall_forall in Hfresh.
    split; [eapply store_extends_trans; eassumption|]. split; [|split].
    + rewrite fmap_cons. constructor; [|exact Hnd].
      intros Hin. apply list_elem_of_fmap in Hin as (q & Hq & Hqin).
      apply (Hfresh q Hqin). rewrite <- Hq. apply elem_of_dom. eauto.
    + constructor; [exact Hfp|]. apply Forall_forall. intros q Hq Hdom.
      apply (Hfresh q Hq). apply elem_of_dom in Hdom as [dq Hdq].
      apply elem_of_dom. exists dq. eapply lookup_weaken; eassumption.
    + constructor; [|exact Hsome]. exists d. eapply lookup_weaken; eassumption.
Qed.

Lemma mutate_top_level_view st p q m :
  _product q <> _product p -> top_level m = true ->
  product_view (mutate st p m) q = product_view st q.
Proof.
  intros Hne Htop. unfold product_view, deep_dict, mutate.
  destruct (dicts st !! _product p) as [d|]; [|reflexivity].
  destruct m; try discriminate; simpl; now rewrite lookup_insert_ne.
Qed.

(** X19: the products of one call of [get_product] on a well-formed
    document are backed by pairwise distinct dictionaries, none of them a
    dictionary of the event; so an assignment to a top-level key through one
    product changes neither what any other product of the call shows nor the
    event's raw data. *)
Theorem returned_products_are_separate (set_iter : list string -> list string)
    (st st' : store) (ev : DetailEvent) (productName source_arg : string)
    (version : Z) (ps : list Product)
    (Hwf : event_wf st ev)
    (Hget : get_product set_iter st ev productName source_arg version
            = (st', Returns ps)) :
  NoDup (_product <$> ps) /\
  forall p m, p ∈ ps -> top_level m = true ->
    raw_data (mutate st' p m) ev = raw_data st' ev /\
    forall q, q ∈ ps -> q <> p ->
      product_view (mutate st' p m) q = product_view st' q.
Proof.
  unfold get_product in Hget.
  destruct (products ev !! productName) as [locs|] eqn:Hlocs; [|discriminate].
  destruct (read_submissions st locs) as [raw|] eqn:Hraw; [|discriminate].
  destruct (select_rows set_iter raw source_arg version) as [rows| |] eqn:Hsel;
    try discriminate.
  destruct (make_products st productName locs rows) as [st2 o] eqn:Hmk.
  destruct o as [ps'| |]; try discriminate. injection Hget as <- <-.
  destruct (make_products_fresh _ _ _ _ _ _ Hmk) as (Hext & Hnd & Hfresh & _).
  split; [exact Hnd|]. intros p m Hp Htop. split.
  - apply mutate_top_level_frame; [|exact Htop].
    intros name locs' Hlocs' Hin.
    rewrite Forall_forall in Hfresh. apply (Hfresh p Hp).
    apply elem_of_dom. eapply Hwf; eassumption.
  - intros q Hq Hqp. apply mutate_top_level_view; [|exact Htop].
    intros Heq. apply Hqp.
    apply list_elem_of_lookup in Hp as [i Hi].
    apply list_elem_of_lookup in Hq as [j Hj].
    assert (i = j) as ->.
    { eapply (NoDup_lookup (_product <$> ps') i j (_product p)); [exact Hnd| |].
      - rewrite list_lookup_fmap, Hi. reflexivity.
      - rewrite list_lookup_fmap, Hj. simpl. now rewrite Heq. }
    congruence.
Qed.

Lemma returned_products_are_separate_witness :
  NoDup (_product <$>
           match snd (get_product first_seen example_store example_event
                        "origin" "all" VersionOption.FIRST) with
           | Returns ps => ps
           | _ => []
           end).
Proof.
  destruct (get_product first_seen example_store example_event "origin" "all"
              VersionOption.FIRST) as [st' o] eqn:Hget.
  destruct o as [ps| |]; try (vm_compute in Hget; discriminate).
  simpl.
  apply (returned_products_are_separate first_seen example_store st'
           example_event "origin" "all" VersionOption.FIRST ps
           example_event_wf Hget).
Defined.
